(** * String Analyzer service: a shallow embedding of [index.js]

    The repository holds two versions of the Express application: the file
    [index.js] and a second, unnamed copy of the same program that differs in
    the filter helper and in the natural-language route.  Both are embedded
    here.  What the two files share (the property computation, the table
    [strings], the POST/GET/DELETE handlers, the router) is defined once; what
    differs lives in [Module IndexJs] and [Module Part000].

    Conventions of the embedding:
    - a JavaScript string is the list of its UTF-16 code units;
    - a JavaScript number is [NaN], an infinity, or an exact rational; lengths
      and counters are naturals and enter the number type only where the
      source compares them with a number;
    - the built-ins whose tables are not part of the repository
      ([toLowerCase], SHA-256, [decodeURIComponent], the string-to-number
      conversion) are fields of the class [JsEngine];
    - the SQLite table is the list of its rows in insertion order, and the
      [properties] column holds the property record itself (the source stores
      [JSON.stringify(props)] and reads it back with [JSON.parse]). *)

From Stdlib Require Import QArith.
From stdpp Require Import base option list numbers strings gmap fin_maps.

Local Open Scope list_scope.

(** ** JavaScript strings *)

(** A string is the sequence of its 16-bit code units. *)
Abbreviation jsstr := (list N).

(** String literals of the source, which are all ASCII. *)
Definition js (s : string) : jsstr :=
  map Ascii.N_of_ascii (String.list_ascii_of_string s).

Definition in_range (lo hi u : N) : bool := ((lo <=? u) && (u <=? hi))%N.

(** [\d] of a regular expression without the [u] flag. *)
Definition is_digit (u : N) : bool := in_range 48 57 u.

(** [\w]: ASCII letters, digits and the underscore. *)
Definition is_word (u : N) : bool :=
  in_range 97 122 u || in_range 65 90 u || is_digit u || (u =? 95)%N.

(** [\s], which is also the set that [String.prototype.trim] removes:
    the WhiteSpace and LineTerminator code points. *)
Definition is_space (u : N) : bool :=
  (in_range 9 13 u || (u =? 32) || (u =? 160) || (u =? 5760)
   || in_range 8192 8202 u || (u =? 8232) || (u =? 8233) || (u =? 8239)
   || (u =? 8287) || (u =? 12288) || (u =? 65279))%N.

Definition is_high_surrogate (u : N) : bool := in_range 55296 56319 u.
Definition is_low_surrogate (u : N) : bool := in_range 56320 57343 u.

(** [s === t] on strings. *)
Fixpoint str_eqb (s t : jsstr) : bool :=
  match s, t with
  | [], [] => true
  | a :: s', b :: t' => (a =? b)%N && str_eqb s' t'
  | _, _ => false
  end.

(** [s.startsWith(p)], returning what follows the prefix. *)
Fixpoint strip_prefix (p s : jsstr) : option jsstr :=
  match p with
  | [] => Some s
  | a :: p' =>
      match s with
      | [] => None
      | b :: s' => if (a =? b)%N then strip_prefix p' s' else None
      end
  end.

(** [s.includes(sub)]: some suffix of [s] starts with [sub]. *)
Fixpoint includes (s sub : jsstr) : bool :=
  match strip_prefix sub s with
  | Some _ => true
  | None =>
      match s with
      | [] => false
      | _ :: s' => includes s' sub
      end
  end.

(** [s.indexOf(sub)], [None] standing for [-1]. *)
Fixpoint indexOf (s sub : jsstr) : option nat :=
  match strip_prefix sub s with
  | Some _ => Some 0%nat
  | None =>
      match s with
      | [] => None
      | _ :: s' => S <$> indexOf s' sub
      end
  end.

(** [s.slice(i, j)] for non-negative indices. *)
Definition slice (s : jsstr) (i j : nat) : jsstr := take (j - i) (drop i s).

(** [s.split] with the empty separator: one string per code unit. *)
Definition split_units (s : jsstr) : list jsstr := map (fun u => [u]) s.

(** [l.join] with the empty separator. *)
Definition join (l : list jsstr) : jsstr := concat l.

(** The string iterator, used by [[...value]] and [for (const ch of value)]:
    it yields code points, so a high surrogate followed by a low surrogate is
    one element; any other code unit is an element by itself. *)
Fixpoint code_points (s : jsstr) : list jsstr :=
  match s with
  | [] => []
  | hi :: rest =>
      match rest with
      | lo :: rest' =>
          if is_high_surrogate hi && is_low_surrogate lo
          then [hi; lo] :: code_points rest'
          else [hi] :: code_points rest
      | [] => [[hi]]
      end
  end.

(** [s.trim()]: white space is removed at both ends. *)
Fixpoint trim_start (s : jsstr) : jsstr :=
  match s with
  | u :: s' => if is_space u then trim_start s' else s
  | [] => []
  end.

Definition trim_end (s : jsstr) : jsstr := reverse (trim_start (reverse s)).

Definition trim (s : jsstr) : jsstr := trim_end (trim_start s).

(** [s.split(/\s+/)]: the pieces between the maximal runs of white space.
    [cur] is the piece being read, [in_sep] tells that the previous code unit
    belonged to a separator. *)
Fixpoint split_spaces_from (cur : jsstr) (in_sep : bool) (s : jsstr) : list jsstr :=
  match s with
  | [] => [cur]
  | u :: s' =>
      if is_space u then
        if in_sep then split_spaces_from cur true s'
        else cur :: split_spaces_from [] true s'
      else split_spaces_from (cur ++ [u]) false s'
  end.

Definition split_spaces (s : jsstr) : list jsstr := split_spaces_from [] false s.

(** ** JavaScript numbers *)

(** Finite numbers carry their exact value.  A double holds every integer of
    magnitude at most 2^53 exactly, and the sums and differences of such
    integers are exact as long as they stay in that range; this is the range
    in which the arithmetic below is the arithmetic of the source. *)
Inductive number : Type :=
| NaN
| Infinity (negative : bool)
| Finite (q : Q).

Definition of_Z (z : Z) : number := Finite (inject_Z z).
Definition of_nat (n : nat) : number := of_Z (Z.of_nat n).

Definition isNaN (x : number) : bool :=
  match x with NaN => true | _ => false end.

Definition Qlt_bool (a b : Q) : bool := negb (Qle_bool b a).

(** [x < y]; every comparison with [NaN] is false. *)
Definition num_lt (x y : number) : bool :=
  match x, y with
  | NaN, _ | _, NaN => false
  | Finite a, Finite b => Qlt_bool a b
  | Finite _, Infinity neg => negb neg
  | Infinity neg, Finite _ => neg
  | Infinity n1, Infinity n2 => n1 && negb n2
  end.

(** [x > y]. *)
Definition num_gt (x y : number) : bool := num_lt y x.

(** [x === y] on numbers; [NaN] differs from everything, itself included. *)
Definition num_strict_eq (x y : number) : bool :=
  match x, y with
  | Finite a, Finite b => Qeq_bool a b
  | Infinity n1, Infinity n2 => eqb n1 n2
  | _, _ => false
  end.

(** [x + y] and [x - y], exact on finite operands.  The source computes in
    doubles: the two agree as long as the exact result is an integer of
    magnitude at most 2^53 (2^53 + 1 itself is not a double), and the
    properties below that speak of a sum or a difference stay in that
    range. *)
Definition num_add (x y : number) : number :=
  match x, y with
  | NaN, _ | _, NaN => NaN
  | Finite a, Finite b => Finite (a + b)
  | Infinity n, Finite _ | Finite _, Infinity n => Infinity n
  | Infinity n1, Infinity n2 => if eqb n1 n2 then Infinity n1 else NaN
  end.

Definition num_neg (x : number) : number :=
  match x with
  | NaN => NaN
  | Infinity n => Infinity (negb n)
  | Finite a => Finite (- a)
  end.

Definition num_sub (x y : number) : number :=
  match x, y with
  | Finite a, Finite b => Finite (a - b)
  | _, _ => num_add x (num_neg y)
  end.

(** The longest prefix made of decimal digits: what [\d+] consumes. *)
Fixpoint take_digits (s : jsstr) : jsstr :=
  match s with
  | d :: s' => if is_digit d then d :: take_digits s' else []
  | [] => []
  end.

(** The value of a run of decimal digits, most significant first. *)
Definition digits_value (ds : jsstr) : Z :=
  fold_left (fun acc d => (10 * acc + (Z.of_N d - 48))%Z) ds 0%Z.

(** [parseInt(x)] with the radix left out.  [undefined] (here [None]) gives
    [NaN].  A string is read after its leading white space as an optional
    sign followed by the longest run of decimal digits, and is [NaN] when
    that run is empty.  (JavaScript reads a string that continues with [0x]
    in base 16; the source only passes the capture of [(\d+)], which has no
    such prefix, so that case is left out.) *)
Definition parseInt (x : option jsstr) : number :=
  match x with
  | None => NaN
  | Some s =>
      let s := trim_start s in
      let '(negative, s) :=
        match s with
        | u :: s' =>
            if (u =? 45)%N then (true, s')
            else if (u =? 43)%N then (false, s')
            else (false, s)
        | [] => (false, s)
        end in
      match take_digits s with
      | [] => NaN
      | ds => of_Z (if negative then - digits_value ds else digits_value ds)
      end
  end.

(** ** The engine's built-ins *)

Definition ascii_lower (u : N) : N :=
  if in_range 65 90 u then (u + 32)%N else u.

Definition is_ascii_letter (u : N) : bool :=
  in_range 65 90 u || in_range 97 122 u.

(** The built-ins whose definition is the engine's and not the repository's.
    The laws are facts of ECMAScript that the development uses to evaluate the
    source at ASCII inputs:
    - [toLowerCase] maps an ASCII string code unit by code unit, [A-Z] to
      [a-z];
    - [decodeURIComponent] ([None] when it throws [URIError]) copies a string
      without [%];
    - the conversion of a string to a number is [NaN] on a string that starts
      with an ASCII letter other than [I] (of [Infinity]), and reads a run of
      decimal digits as the integer it denotes (exactly, up to 2^53). *)
Class JsEngine : Type := {
  toLowerCase : jsstr -> jsstr;
  sha256_hex : jsstr -> jsstr;
  decodeURIComponent : jsstr -> option jsstr;
  StringToNumber : jsstr -> number;
  toLowerCase_ascii : forall s,
    Forall (fun u => (u < 128)%N) s -> toLowerCase s = map ascii_lower s;
  decodeURIComponent_plain : forall s,
    37%N ∉ s -> decodeURIComponent s = Some s;
  StringToNumber_letter : forall u s,
    is_ascii_letter u = true -> u <> 73%N -> StringToNumber (u :: s) = NaN;
  StringToNumber_digits : forall ds,
    ds <> [] -> forallb is_digit ds = true ->
    (digits_value ds <= 2 ^ 53)%Z ->
    StringToNumber ds = of_Z (digits_value ds)
}.

(** ** Values *)

(** What a JSON request body can hold under the key [value]. *)
Inductive jsval : Type :=
| JNull
| JBool (b : bool)
| JNum (n : number)
| JStr (s : jsstr)
| JObject.

(** [typeof v === 'string'] *)
Definition is_string (v : jsval) : bool :=
  match v with JStr _ => true | _ => false end.

(** [String(b)] on a boolean. *)
Definition String_of_bool (b : bool) : jsstr :=
  if b then js "true" else js "false".

(** ** The property set *)

Module PropertySet.
Record t : Type := mk {
  length : nat;
  is_palindrome : bool;
  unique_characters : nat;
  word_count : nat;
  sha256_hash : jsstr;
  character_frequency_map : gmap jsstr nat
}.
End PropertySet.

(** [x || 0] on a counter read from an object: [undefined] and [0] give 0. *)
Definition or_zero (o : option nat) : nat :=
  match o with
  | Some (S n) => S n
  | _ => 0
  end.

Section Analyzer.
Context `{JsEngine}.

(** The loop over [value] that fills [character_frequency_map]. *)
Definition count_characters (value : jsstr) : gmap jsstr nat :=
  foldl (fun m ch => <[ch := or_zero (m !! ch) + 1]> m) ∅ (code_points value).

(** The body of [computeProperties] once [value] is known to be a string. *)
Definition analyze (value : jsstr) : PropertySet.t :=
  let length := length value in
  let lower := toLowerCase value in
  let is_palindrome := str_eqb lower (join (reverse (split_units lower))) in
  let unique_characters := size (list_to_set (code_points value) : gset jsstr) in
  let word_count :=
    if str_eqb (trim value) [] then 0
    else List.length (split_spaces (trim value)) in
  let sha256_hash := sha256_hex value in
  let character_frequency_map := count_characters value in
  PropertySet.mk length is_palindrome unique_characters word_count
    sha256_hash character_frequency_map.

(** [computeProperties(value)]; [None] is the [TypeError] thrown for a value
    that is not a string. *)
Definition computeProperties (value : jsval) : option PropertySet.t :=
  match value with
  | JStr s => Some (analyze s)
  | _ => None
  end.
End Analyzer.

(** ** The table [strings] *)

Module Row.
Record t : Type := mk {
  id : jsstr;
  value : jsstr;
  properties : PropertySet.t;
  created_at : jsstr
}.
End Row.

(** The rows of the table in insertion order.  A TEXT column gives back the
    string that was stored in it; this is so for the strings without a lone
    surrogate.  (SQLite keeps TEXT as UTF-8, so a lone surrogate of a posted
    value comes back as U+FFFD; the digest, taken from the UTF-8 bytes, is
    the same for both.) *)
Abbreviation store := (list Row.t).

(** [SELECT ... FROM strings WHERE id = ?], first row. *)
Definition db_get (st : store) (id : jsstr) : option Row.t :=
  List.find (fun r => str_eqb (Row.id r) id) st.

(** [INSERT INTO strings ...]; [None] is the constraint error of the primary
    key [id]. *)
Definition db_insert (st : store) (r : Row.t) : option store :=
  match db_get st (Row.id r) with
  | Some _ => None
  | None => Some (st ++ [r])
  end.

(** [DELETE FROM strings WHERE id = ?]. *)
Definition db_delete (st : store) (id : jsstr) : store :=
  List.filter (fun r => negb (str_eqb (Row.id r) id)) st.

(** Binary comparison of two TEXT values: [s < t]. *)
Fixpoint str_ltb (s t : jsstr) : bool :=
  match s, t with
  | _, [] => false
  | [], _ :: _ => true
  | a :: s', b :: t' => (a <? b)%N || ((a =? b)%N && str_ltb s' t')
  end.

(** [SELECT * FROM strings ORDER BY created_at DESC]: an insertion sort that
    keeps rows with the same timestamp in insertion order. *)
Fixpoint insert_desc (r : Row.t) (sorted : list Row.t) : list Row.t :=
  match sorted with
  | [] => [r]
  | x :: rest =>
      if str_ltb (Row.created_at x) (Row.created_at r)
      then r :: x :: rest
      else x :: insert_desc r rest
  end.

Definition db_all_desc (st : store) : list Row.t :=
  fold_left (fun sorted r => insert_desc r sorted) st [].

(** ** Filters *)

(** A numeric filter field holds what its two producers put there: a number
    (the natural-language route) or the text of a query parameter. *)
Inductive field_value : Type :=
| FNum (n : number)
| FStr (s : jsstr).

Module FilterSet.
(** The object [filters]; [None] is a key that is absent or [undefined].
    [contains_character] is a string in both producers. *)
Record t : Type := mk {
  is_palindrome : option bool;
  min_length : option field_value;
  max_length : option field_value;
  word_count : option field_value;
  contains_character : option jsstr
}.

(** [{}] *)
Definition empty : t := mk None None None None None.

Definition set_is_palindrome (b : bool) (f : t) : t :=
  mk (Some b) (min_length f) (max_length f) (word_count f) (contains_character f).
Definition set_min_length (v : field_value) (f : t) : t :=
  mk (is_palindrome f) (Some v) (max_length f) (word_count f) (contains_character f).
Definition set_max_length (v : field_value) (f : t) : t :=
  mk (is_palindrome f) (min_length f) (Some v) (word_count f) (contains_character f).
Definition set_word_count (v : field_value) (f : t) : t :=
  mk (is_palindrome f) (min_length f) (max_length f) (Some v) (contains_character f).
Definition set_contains_character (ch : jsstr) (f : t) : t :=
  mk (is_palindrome f) (min_length f) (max_length f) (word_count f) (Some ch).

Definition present {A} (o : option A) : nat :=
  match o with Some _ => 1 | None => 0 end.

(** [Object.keys(filters).length] *)
Definition keys_length (f : t) : nat :=
  present (is_palindrome f) + present (min_length f) + present (max_length f)
  + present (word_count f) + present (contains_character f).
End FilterSet.

(** [field !== undefined && test(field)] *)
Definition defined_and {A} (field : option A) (test : A -> bool) : bool :=
  match field with
  | Some v => test v
  | None => false
  end.

(** ** Requests and responses *)

Inductive method : Type := GET | POST | DELETE.

Definition method_eqb (a b : method) : bool :=
  match a, b with
  | GET, GET | POST, POST | DELETE, DELETE => true
  | _, _ => false
  end.

(** A request after Express has parsed it: the path as its list of decoded,
    non-empty segments, the query string as a map from parameter names to
    their text, and the key [value] of the JSON body ([None] when the body or
    the key is missing).  Two kinds of request are not of this form: one
    whose body [express.json()] rejects (the error middleware answers 500
    before any route runs), and one with a repeated or bracketed query
    parameter, which Express hands over as an array or an object. *)
Record request : Type := {
  req_method : method;
  req_path : list jsstr;
  req_query : gmap jsstr jsstr;
  req_body_value : option jsval
}.

(** The texts of the [error] field of the JSON error bodies. *)
Inductive error_message : Type :=
| ValueFieldRequired        (* 'value' field is required *)
| ValueMustBeString         (* 'value' must be a string *)
| StringAlreadyExists       (* String already exists in the system *)
| MissingStringValueParam   (* missing string value param *)
| StringNotFound            (* String not found *)
| StringDoesNotExist        (* String does not exist in the system *)
| MissingQueryParameter     (* Missing 'query' parameter *)
| UnableToParse             (* Unable to parse natural language query *)
| InternalServerError.      (* internal_server_error *)

Inductive body : Type :=
| Error (e : error_message)
| Record_ (r : Row.t)
| Listing (data : list Row.t) (count : nat)
| Interpreted (data : list Row.t) (count : nat)
    (original : jsstr) (parsed_filters : FilterSet.t)
| StatusOk
| CannotRoute
| NoContent.

Record response : Type := { status : nat; payload : body }.

(** What running a handler gives: a response and the table after it, or an
    exception that reaches the error-handling middleware. *)
Inductive outcome : Type :=
| Responded (r : response) (st : store)
| Thrown.

(** A route handler receives the values of the path parameters, the table,
    the time of the clock and the request. *)
Abbreviation handler := (list jsstr -> store -> jsstr -> request -> outcome).

(** ** Handlers shared by the two files *)

Section Handlers.
Context `{JsEngine}.

(** [app.post('/strings', ...)] *)
Definition post_strings : handler := fun _ st now req =>
  match req_body_value req with
  | None => Responded {| status := 400; payload := Error ValueFieldRequired |} st
  | Some value =>
      if negb (is_string value)
      then Responded {| status := 422; payload := Error ValueMustBeString |} st
      else
        match computeProperties value, value with
        | Some props, JStr s =>
            let id := PropertySet.sha256_hash props in
            match db_get st id with
            | Some _ =>
                Responded {| status := 409; payload := Error StringAlreadyExists |} st
            | None =>
                let r := Row.mk id s props now in
                match db_insert st r with
                | Some st' => Responded {| status := 201; payload := Record_ r |} st'
                | None => Thrown
                end
            end
        | _, _ => Thrown
        end
  end.

(** [app.get('/strings/:string_value', ...)] *)
Definition get_string : handler := fun params st _ _ =>
  match head params with
  | None | Some [] =>
      Responded {| status := 400; payload := Error MissingStringValueParam |} st
  | Some raw =>
      match decodeURIComponent raw with
      | None => Thrown
      | Some value =>
          let hash := sha256_hex value in
          match db_get st hash with
          | None => Responded {| status := 404; payload := Error StringNotFound |} st
          | Some row => Responded {| status := 200; payload := Record_ row |} st
          end
      end
  end.

(** [app.delete('/strings/:string_value', ...)] *)
Definition delete_string : handler := fun params st _ _ =>
  match decodeURIComponent (default (js "undefined") (head params)) with
  | None => Thrown
  | Some value =>
      let id := sha256_hex value in
      match db_get st id with
      | None => Responded {| status := 404; payload := Error StringDoesNotExist |} st
      | Some _ => Responded {| status := 204; payload := NoContent |} (db_delete st id)
      end
  end.

(** [app.get('/strings', ...)], over the file's own [applyFilters]. *)
Definition get_strings
    (applyFilters : list Row.t -> FilterSet.t -> list Row.t) : handler :=
  fun _ st _ req =>
    let q := req_query req in
    let allRows := db_all_desc st in
    let filtered :=
      applyFilters allRows
        (FilterSet.mk
           ((fun v => str_eqb v (js "true")) <$> q !! js "is_palindrome")
           (FStr <$> q !! js "min_length")
           (FStr <$> q !! js "max_length")
           (FStr <$> q !! js "word_count")
           (q !! js "contains_character")) in
    Responded {| status := 200; payload := Listing filtered (List.length filtered) |} st.

(** [app.get('/', ...)] *)
Definition health : handler := fun _ st _ _ =>
  Responded {| status := 200; payload := StatusOk |} st.

(** [Number(v)] on a filter field. *)
Definition Number (v : field_value) : number :=
  match v with
  | FNum n => n
  | FStr s => StringToNumber s
  end.
End Handlers.

(** ** The router *)

(** A segment of a route path: a literal, or a named parameter [:name]. *)
Inductive segment : Type :=
| Lit (s : jsstr)
| Param.

(** Matching a path against a route path; the result lists the values of the
    parameters.  Express compares literals without regard to ASCII case. *)
Fixpoint match_path (pat : list segment) (path : list jsstr) : option (list jsstr) :=
  match pat, path with
  | [], [] => Some []
  | Lit s :: pat', x :: path' =>
      if str_eqb (map ascii_lower s) (map ascii_lower x)
      then match_path pat' path' else None
  | Param :: pat', x :: path' => cons x <$> match_path pat' path'
  | _, _ => None
  end.

Record route : Type := {
  route_method : method;
  route_path : list segment;
  route_handler : handler
}.

(** Express tries the routes in the order of their registration and runs the
    first one whose method and path match; no handler of the application
    calls [next()], so no later route runs.  Without a match Express answers
    404 by itself. *)
Fixpoint dispatch (routes : list route) (st : store) (now : jsstr)
    (req : request) : outcome :=
  match routes with
  | [] => Responded {| status := 404; payload := CannotRoute |} st
  | r :: routes' =>
      if method_eqb (route_method r) (req_method req) then
        match match_path (route_path r) (req_path req) with
        | Some params => route_handler r params st now req
        | None => dispatch routes' st now req
        end
      else dispatch routes' st now req
  end.

(** The error-handling middleware registered last, [app.use((err, ...))]. *)
Definition run (routes : list route) (st : store) (now : jsstr)
    (req : request) : response * store :=
  match dispatch routes st now req with
  | Responded r st' => (r, st')
  | Thrown => ({| status := 500; payload := Error InternalServerError |}, st)
  end.

(** ** Regular expressions of the natural-language route *)

(** [s.match(re)] for a pattern [re] without anchors: the match is tried at
    every position from the left, and the first success is the result.
    [at_start] is the match anchored at the start of its argument and returns
    the first capture group. *)
Fixpoint regex_search (at_start : jsstr -> option jsstr) (s : jsstr) : option jsstr :=
  match at_start s with
  | Some g => Some g
  | None =>
      match s with
      | [] => None
      | _ :: s' => regex_search at_start s'
      end
  end.

(** [lit(\d+)] anchored: [\d+] is greedy and takes the whole run of digits. *)
Definition literal_then_digits (lit s : jsstr) : option jsstr :=
  match strip_prefix lit s with
  | Some rest =>
      match take_digits rest with
      | [] => None
      | ds => Some ds
      end
  | None => None
  end.

(** [lit(\w)] anchored. *)
Definition literal_then_word (lit s : jsstr) : option jsstr :=
  match strip_prefix lit s with
  | Some (c :: _) => if is_word c then Some [c] else None
  | _ => None
  end.

(** A string is truthy unless it is empty. *)
Definition truthy (s : jsstr) : bool :=
  match s with [] => false | _ => true end.

(** [s.indexOf(sub)] as a number, [-1] when there is no occurrence. *)
Definition indexOf_Z (s sub : jsstr) : Z :=
  match indexOf s sub with
  | Some i => Z.of_nat i
  | None => (-1)%Z
  end.

(** ** [index.js] *)

Module IndexJs.
Section WithEngine.
Context `{JsEngine}.

(** The callback of [rows.filter] in [applyFilters]; [p] is
    [JSON.parse(r.properties)].  The test [typeof ch !== 'string'] of the
    source is false for every [ch] of this embedding and is left out. *)
Definition matches (filters : FilterSet.t) (r : Row.t) : bool :=
  let p := Row.properties r in
  if defined_and (FilterSet.is_palindrome filters) (fun b =>
       negb (str_eqb (String_of_bool (PropertySet.is_palindrome p))
                     (String_of_bool b)))
  then false
  else if defined_and (FilterSet.min_length filters) (fun v =>
       num_lt (of_nat (PropertySet.length p)) (Number v))
  then false
  else if defined_and (FilterSet.max_length filters) (fun v =>
       num_gt (of_nat (PropertySet.length p)) (Number v))
  then false
  else if defined_and (FilterSet.word_count filters) (fun v =>
       negb (num_strict_eq (of_nat (PropertySet.word_count p)) (Number v)))
  then false
  else
    match FilterSet.contains_character filters with
    | Some ch =>
        if Nat.eqb (length ch) 0 then false
        else if negb (includes (Row.value r) ch) then false
        else true
    | None => true
    end.

Definition applyFilters (rows : list Row.t) (filters : FilterSet.t) : list Row.t :=
  List.filter (matches filters) rows.

(** The block commented 'Basic natural language parsing': from the
    lowercased query to the object [filters]. *)
Definition parse_query (lower : jsstr) : FilterSet.t :=
  let filters := FilterSet.empty in
  let filters :=
    if includes lower (js "palindromic")
    then FilterSet.set_is_palindrome true filters else filters in
  let filters :=
    if includes lower (js "longer than") then
      let num :=
        parseInt (regex_search (literal_then_digits (js "longer than ")) lower) in
      if negb (isNaN num)
      then FilterSet.set_min_length (FNum (num_add num (of_Z 1))) filters
      else filters
    else filters in
  let filters :=
    if includes lower (js "single word")
    then FilterSet.set_word_count (FNum (of_Z 1)) filters else filters in
  let filters :=
    if includes lower (js "containing the letter") then
      match regex_search (literal_then_word (js "containing the letter ")) lower with
      | Some ch =>
          if truthy ch then FilterSet.set_contains_character ch filters else filters
      | None => filters
      end
    else if includes lower (js "containing the letter") then
      let i := indexOf_Z lower (js "containing the letter") in
      let ch := slice lower (Z.to_nat (i + 22)) (Z.to_nat (i + 23)) in
      if truthy ch then FilterSet.set_contains_character ch filters else filters
    else filters in
  let filters :=
    if includes lower (js "containing the first vowel")
    then FilterSet.set_contains_character (js "a") filters else filters in
  filters.

(** [app.get('/strings/filter-by-natural-language', ...)] *)
Definition filter_by_natural_language : handler := fun _ st _ req =>
  match req_query req !! js "query" with
  | None | Some [] =>
      Responded {| status := 400; payload := Error MissingQueryParameter |} st
  | Some query =>
      let lower := toLowerCase query in
      let filters := parse_query lower in
      let allRows := db_all_desc st in
      let filtered := applyFilters allRows filters in
      if Nat.eqb (FilterSet.keys_length filters) 0
      then Responded {| status := 400; payload := Error UnableToParse |} st
      else
        Responded
          {| status := 200;
             payload := Interpreted filtered (length filtered) query filters |} st
  end.

(** The routes in the order in which the file registers them. *)
Definition routes : list route :=
  [ {| route_method := POST; route_path := [Lit (js "strings")];
       route_handler := post_strings |};
    {| route_method := GET; route_path := [Lit (js "strings"); Param];
       route_handler := get_string |};
    {| route_method := GET; route_path := [Lit (js "strings")];
       route_handler := get_strings applyFilters |};
    {| route_method := DELETE; route_path := [Lit (js "strings"); Param];
       route_handler := delete_string |};
    {| route_method := GET;
       route_path := [Lit (js "strings"); Lit (js "filter-by-natural-language")];
       route_handler := filter_by_natural_language |};
    {| route_method := GET; route_path := []; route_handler := health |} ].

Definition app : store -> jsstr -> request -> response * store := run routes.
End WithEngine.
End IndexJs.

(** ** The second copy of the program *)

Module Part000.
Section WithEngine.
Context `{JsEngine}.

(** The callback of [rows.filter] in [applyFilters]. *)
Definition matches (filters : FilterSet.t) (r : Row.t) : bool :=
  let p := Row.properties r in
  if defined_and (FilterSet.is_palindrome filters) (fun b =>
       negb (str_eqb (String_of_bool (PropertySet.is_palindrome p))
                     (String_of_bool b)))
  then false
  else if defined_and (FilterSet.min_length filters) (fun v =>
       num_lt (of_nat (PropertySet.length p)) (Number v))
  then false
  else if defined_and (FilterSet.max_length filters) (fun v =>
       num_gt (of_nat (PropertySet.length p)) (Number v))
  then false
  else if defined_and (FilterSet.word_count filters) (fun v =>
       negb (num_strict_eq (of_nat (PropertySet.word_count p)) (Number v)))
  then false
  else
    match FilterSet.contains_character filters with
    | Some ch =>
        if truthy ch then
          if negb (includes (toLowerCase (Row.value r)) (toLowerCase ch))
          then false else true
        else true
    | None => true
    end.

Definition applyFilters (rows : list Row.t) (filters : FilterSet.t) : list Row.t :=
  List.filter (matches filters) rows.

(** The block commented 'Improved natural language detection'. *)
Definition parse_query (lower : jsstr) : FilterSet.t :=
  let filters := FilterSet.empty in
  let filters :=
    if includes lower (js "palindrome") || includes lower (js "palindromic")
    then FilterSet.set_is_palindrome true filters else filters in
  let longerMatch := regex_search (literal_then_digits (js "longer than ")) lower in
  let filters :=
    match longerMatch with
    | Some g =>
        FilterSet.set_min_length (FNum (num_add (parseInt (Some g)) (of_Z 1))) filters
    | None => filters
    end in
  let shorterMatch := regex_search (literal_then_digits (js "shorter than ")) lower in
  let filters :=
    match shorterMatch with
    | Some g =>
        FilterSet.set_max_length (FNum (num_sub (parseInt (Some g)) (of_Z 1))) filters
    | None => filters
    end in
  let filters :=
    if includes lower (js "single word")
    then FilterSet.set_word_count (FNum (of_Z 1)) filters else filters in
  let containsMatch :=
    regex_search (literal_then_word (js "containing the letter ")) lower in
  let filters :=
    match containsMatch with
    | Some g => FilterSet.set_contains_character g filters
    | None => filters
    end in
  let filters :=
    if includes lower (js "containing the first vowel")
    then FilterSet.set_contains_character (js "a") filters else filters in
  filters.

(** [app.get('/strings/filter-by-natural-language', ...)] *)
Definition filter_by_natural_language : handler := fun _ st _ req =>
  match req_query req !! js "query" with
  | None | Some [] =>
      Responded {| status := 400; payload := Error MissingQueryParameter |} st
  | Some query =>
      let lower := toLowerCase query in
      let filters := parse_query lower in
      if Nat.eqb (FilterSet.keys_length filters) 0
      then Responded {| status := 400; payload := Error UnableToParse |} st
      else
        let allRows := db_all_desc st in
        let filtered := applyFilters allRows filters in
        Responded
          {| status := 200;
             payload := Interpreted filtered (length filtered) query filters |} st
  end.

(** The routes in the order in which the file registers them. *)
Definition routes : list route :=
  [ {| route_method := POST; route_path := [Lit (js "strings")];
       route_handler := post_strings |};
    {| route_method := GET; route_path := [Lit (js "strings"); Param];
       route_handler := get_string |};
    {| route_method := GET; route_path := [Lit (js "strings")];
       route_handler := get_strings applyFilters |};
    {| route_method := DELETE; route_path := [Lit (js "strings"); Param];
       route_handler := delete_string |};
    {| route_method := GET;
       route_path := [Lit (js "strings"); Lit (js "filter-by-natural-language")];
       route_handler := filter_by_natural_language |};
    {| route_method := GET; route_path := []; route_handler := health |} ].

Definition app : store -> jsstr -> request -> response * store := run routes.
End WithEngine.
End Part000.

(** ** An engine for Basic Latin text *)

(** The string-to-number conversion on runs of decimal digits and on the
    empty string. *)
Definition basic_latin_number (s : jsstr) : number :=
  match s with
  | [] => of_Z 0
  | _ => if forallb is_digit s then of_Z (digits_value s) else NaN
  end.

Definition hex_digit (n : N) : N :=
  if (n <? 10)%N then (n + 48)%N else (n + 87)%N.

(** The UTF-8 bytes of a code point. *)
Definition utf8_of_code_point (c : N) : list N :=
  (if c <? 128 then [c]
   else if c <? 2048 then [192 + c / 64; 128 + c mod 64]
   else if c <? 65536 then [224 + c / 4096; 128 + c / 64 mod 64; 128 + c mod 64]
   else [240 + c / 262144; 128 + c / 4096 mod 64; 128 + c / 64 mod 64;
         128 + c mod 64])%N.

(** The bytes that Node hashes for a string: its UTF-8 encoding, a surrogate
    pair standing for one code point and a lone surrogate for U+FFFD. *)
Fixpoint utf8 (s : jsstr) : list N :=
  match s with
  | [] => []
  | hi :: rest =>
      match rest with
      | lo :: rest' =>
          if is_high_surrogate hi && is_low_surrogate lo
          then utf8_of_code_point (65536 + (hi - 55296) * 1024 + (lo - 56320))%N
                 ++ utf8 rest'
          else utf8_of_code_point
                 (if is_high_surrogate hi || is_low_surrogate hi then 65533%N else hi)
                 ++ utf8 rest
      | [] =>
          utf8_of_code_point
            (if is_high_surrogate hi || is_low_surrogate hi then 65533%N else hi)
      end
  end.

(** SHA-256 as FIPS 180-4 defines it, on a list of bytes; words are 32-bit
    numbers. *)
Module SHA256.
Definition w32 (x : N) : N := (x mod 4294967296)%N.
Definition add32 (x y : N) : N := w32 (x + y).
Definition rotr (n x : N) : N :=
  w32 (N.lor (N.shiftr x n) (N.shiftl x (32 - n))).
Definition xor3 (a b c : N) : N := N.lxor a (N.lxor b c).
Definition Ch (x y z : N) : N := N.lxor z (N.land x (N.lxor y z)).
Definition Maj (x y z : N) : N :=
  xor3 (N.land x y) (N.land x z) (N.land y z).
Definition bsig0 (x : N) : N := xor3 (rotr 2 x) (rotr 13 x) (rotr 22 x).
Definition bsig1 (x : N) : N := xor3 (rotr 6 x) (rotr 11 x) (rotr 25 x).
Definition ssig0 (x : N) : N := xor3 (rotr 7 x) (rotr 18 x) (N.shiftr x 3).
Definition ssig1 (x : N) : N := xor3 (rotr 17 x) (rotr 19 x) (N.shiftr x 10).

(** The first primes, by trial division. *)
Definition is_prime (n : N) : bool :=
  (1 <? n)%N && forallb (fun d => negb (n mod d =? 0)%N)
                  (map N.of_nat (seq 2 (N.to_nat n - 2))).
Definition primes : list N :=
  Eval vm_compute in take 64 (List.filter is_prime (map N.of_nat (seq 2 320))).

(** The integer cube root, bit by bit from bit [k] down. *)
Fixpoint cube_root_from (k : nat) (n r : N) : N :=
  match k with
  | O => r
  | S k' =>
      let r' := (r + 2 ^ N.of_nat k')%N in
      cube_root_from k' n (if (r' * r' * r' <=? n)%N then r' else r)
  end.

(** The first 32 bits of the fractional parts of the square roots of the
    first 8 primes and of the cube roots of the first 64 primes. *)
Definition H0 : list N :=
  Eval vm_compute in map (fun p => w32 (N.sqrt (p * 2 ^ 64))) (take 8 primes).
Definition K : list N :=
  Eval vm_compute in map (fun p => w32 (cube_root_from 40 (p * 2 ^ 96) 0)) primes.

Definition be_bytes (n : nat) (x : N) : list N :=
  map (fun i => (x / 256 ^ N.of_nat i mod 256)%N) (reverse (seq 0 n)).

Definition pad (msg : list N) : list N :=
  let l := length msg in
  msg ++ [128%N] ++ replicate ((119 - l mod 64) mod 64) 0%N
      ++ be_bytes 8 (8 * N.of_nat l).

Fixpoint words (fuel : nat) (bytes : list N) : list N :=
  match fuel, bytes with
  | S fuel', a :: b :: c :: d :: rest =>
      (((a * 256 + b) * 256 + c) * 256 + d)%N :: words fuel' rest
  | _, _ => []
  end.

(** The message schedule: [w] holds the words computed so far, newest
    first. *)
Fixpoint schedule (n : nat) (w : list N) : list N :=
  match n with
  | O => w
  | S n' =>
      let nth i := default 0%N (w !! i) in
      schedule n'
        (add32 (add32 (ssig1 (nth 1%nat)) (nth 6%nat))
               (add32 (ssig0 (nth 14%nat)) (nth 15%nat)) :: w)
  end.

Definition round (st : list N) (kw : N * N) : list N :=
  match st with
  | [a; b; c; d; e; f; g; h] =>
      let t1 := add32 (add32 (add32 h (bsig1 e)) (add32 (Ch e f g) (fst kw))) (snd kw) in
      let t2 := add32 (bsig0 a) (Maj a b c) in
      [add32 t1 t2; a; b; c; add32 d t1; e; f; g]
  | _ => st
  end.

Definition compress (h : list N) (block : list N) : list N :=
  let w := reverse (schedule 48 (reverse block)) in
  zip_with add32 h (fold_left round (zip K w) h).

Fixpoint blocks (fuel : nat) (ws : list N) : list (list N) :=
  match fuel, ws with
  | S fuel', _ :: _ => take 16 ws :: blocks fuel' (drop 16 ws)
  | _, _ => []
  end.

Definition digest (msg : list N) : list N :=
  let ws := words (length msg + 72) (pad msg) in
  fold_left compress (blocks (length ws) ws) H0.

Definition hex (msg : list N) : jsstr :=
  flat_map (fun w => map (fun i => hex_digit (w / 16 ^ N.of_nat i mod 16)%N)
                       (reverse (seq 0 8))) (digest msg).
End SHA256.

(** An engine that satisfies the laws of [JsEngine].  Its digest is SHA-256
    of the UTF-8 encoding, as in Node.  On Basic Latin strings without percent
    escapes its [toLowerCase] and [decodeURIComponent] are JavaScript's, and
    so is its conversion to numbers on digit runs and on words; the concrete
    evaluations of this development stay in that fragment. *)
Definition basic_latin : JsEngine.
Proof.
  refine {|
    toLowerCase := map ascii_lower;
    sha256_hex := fun s => SHA256.hex (utf8 s);
    decodeURIComponent := fun s => if bool_decide (37%N ∈ s) then None else Some s;
    StringToNumber := basic_latin_number |}.
  - reflexivity.
  - intros s Hs. rewrite bool_decide_eq_false_2; auto.
  - intros u s Hu Hne. unfold basic_latin_number.
    assert (is_digit u = false) as Hd.
    { apply not_true_is_false. intros Hd.
      unfold is_ascii_letter, is_digit, in_range in *.
      rewrite ?orb_true_iff, ?andb_true_iff, ?N.leb_le in *. lia. }
    simpl. rewrite Hd. reflexivity.
  - intros ds Hne Hds _. unfold basic_latin_number. rewrite Hds.
    destruct ds; congruence.
Defined.

(** ** Notions used to state the properties *)

(** The sum of the counts held by a frequency map. *)
Definition sum_counts (m : gmap jsstr nat) : nat :=
  map_fold (fun _ c acc => c + acc) 0 m.

(** A filter set with one of its keys removed. *)
Definition without_min_length (f : FilterSet.t) : FilterSet.t :=
  FilterSet.mk (FilterSet.is_palindrome f) None (FilterSet.max_length f)
    (FilterSet.word_count f) (FilterSet.contains_character f).

Definition without_max_length (f : FilterSet.t) : FilterSet.t :=
  FilterSet.mk (FilterSet.is_palindrome f) (FilterSet.min_length f) None
    (FilterSet.word_count f) (FilterSet.contains_character f).

Definition without_contains_character (f : FilterSet.t) : FilterSet.t :=
  FilterSet.mk (FilterSet.is_palindrome f) (FilterSet.min_length f)
    (FilterSet.max_length f) (FilterSet.word_count f) None.

(** The row that a successful [POST /strings] writes for [value] at time
    [now]. *)
Definition new_row `{JsEngine} (value now : jsstr) : Row.t :=
  Row.mk (sha256_hex value) value (analyze value) now.

(** [sub] occurs in [s] as a substring. *)
Definition contains (s sub : jsstr) : Prop :=
  exists pre post, s = pre ++ sub ++ post.

(** [lit] occurs in [s] followed by a code unit of the class [cls]: the
    patterns [lit(\d+)] and [lit(\w)] match somewhere in [s]. *)
Definition contains_then (cls : N -> bool) (s lit : jsstr) : Prop :=
  exists pre c post, s = pre ++ lit ++ c :: post /\ cls c = true.

Definition starts_with_digit (s : jsstr) : bool :=
  match s with
  | c :: _ => is_digit c
  | [] => false
  end.

(** The six recognized patterns of the specification, on a lowercased
    query: 'palindrome' or 'palindromic', 'longer than N', 'shorter than N',
    'single word', 'containing the letter X', 'containing the first vowel'. *)
Definition recognized_patterns (lower : jsstr) : Prop :=
  (contains lower (js "palindrome") \/ contains lower (js "palindromic"))
  \/ contains_then is_digit lower (js "longer than ")
  \/ contains_then is_digit lower (js "shorter than ")
  \/ contains lower (js "single word")
  \/ contains_then is_word lower (js "containing the letter ")
  \/ contains lower (js "containing the first vowel").

(** The five of them that [index.js] tests: 'palindrome' without 'ic' and
    'shorter than N' are not among them. *)
Definition recognized_by_index_js (lower : jsstr) : Prop :=
  contains lower (js "palindromic")
  \/ contains_then is_digit lower (js "longer than ")
  \/ contains lower (js "single word")
  \/ contains_then is_word lower (js "containing the letter ")
  \/ contains lower (js "containing the first vowel").

(** [value] is stored: some row of the table holds it. *)
Definition present (st : store) (value : jsstr) : Prop :=
  exists r, In r st /\ Row.value r = value.

(** The tables that an application can be in: it starts with the empty table
    and serves requests one after the other. *)
Inductive reachable (app : store -> jsstr -> request -> response * store) :
    store -> Prop :=
| reachable_empty : reachable app []
| reachable_step st now req :
    reachable app st -> reachable app (snd (app st now req)).

(** Every row is keyed by the digest of its value. *)
Definition keyed_by_digest `{JsEngine} (st : store) : Prop :=
  forall r, In r st -> Row.id r = sha256_hex (Row.value r).

(** A handler keeps a property of the table. *)
Definition preserves (P : store -> Prop) (h : handler) : Prop :=
  forall params st now req r st',
    P st -> h params st now req = Responded r st' -> P st'.

(** The request [POST /strings] with the body [{ value }]. *)
Definition post_request (value : jsstr) : request :=
  {| req_method := POST; req_path := [js "strings"];
     req_query := ∅; req_body_value := Some (JStr value) |}.

(** The request [GET /strings/filter-by-natural-language?query=...];
    [query] is [None] when the parameter is missing. *)
Definition natural_language_request (query : option jsstr) : request :=
  {| req_method := GET;
     req_path := [js "strings"; js "filter-by-natural-language"];
     req_query := match query with
                  | Some q => {[ js "query" := q ]}
                  | None => ∅
                  end;
     req_body_value := None |}.

(** ** Sample data *)

(** Two readings of the clock. *)
Definition t0 : jsstr := js "2025-10-20T10:00:00.000Z".
Definition t1 : jsstr := js "2025-10-20T10:05:00.000Z".

(** The rows written for 'apple' and for 'hello', and the table after the
    first [POST /strings] of 'racecar', under the Basic Latin engine. *)
Definition row_apple : Row.t := @new_row basic_latin (js "apple") t0.
Definition row_hello : Row.t := @new_row basic_latin (js "hello") t0.
Definition table_racecar : store :=
  snd (@IndexJs.app basic_latin [] t0 (post_request (js "racecar"))).

(** [{ contains_character: 'A' }], as [GET /strings?contains_character=A]
    builds it, and [{ min_length: 'abc' }], [{ word_count: 'abc' }]. *)
Definition filter_contains_A : FilterSet.t :=
  FilterSet.mk None None None None (Some (js "A")).
Definition filter_min_length_abc : FilterSet.t :=
  FilterSet.mk None (Some (FStr (js "abc"))) None None None.
Definition filter_word_count_abc : FilterSet.t :=
  FilterSet.mk None None None (Some (FStr (js "abc"))) None.

(** ** Further requests and notions *)

(** [GET /strings/:string_value] and [DELETE /strings/:string_value]; [raw]
    is the path parameter as Express hands it to the handler. *)
Definition get_request (raw : jsstr) : request :=
  {| req_method := GET; req_path := [js "strings"; raw];
     req_query := ∅; req_body_value := None |}.

Definition delete_request (raw : jsstr) : request :=
  {| req_method := DELETE; req_path := [js "strings"; raw];
     req_query := ∅; req_body_value := None |}.

(** [GET /strings] with the query parameters [q]. *)
Definition list_request (q : gmap jsstr jsstr) : request :=
  {| req_method := GET; req_path := [js "strings"];
     req_query := q; req_body_value := None |}.

(** [id] is a key of the table. *)
Definition is_key (st : store) (id : jsstr) : Prop := In id (map Row.id st).

(** The table holds one row per key, and every row is the one that
    [POST /strings] writes for its value: the key is the digest of the value
    and the stored properties are those computed from the value. *)
Definition well_formed `{JsEngine} (st : store) : Prop :=
  NoDup (map Row.id st)
  /\ forall r, In r st -> r = new_row (Row.value r) (Row.created_at r).

(** The routes of each file without [/strings/filter-by-natural-language]. *)
Definition IndexJs_routes_served `{JsEngine} : list route :=
  [ {| route_method := POST; route_path := [Lit (js "strings")];
       route_handler := post_strings |};
    {| route_method := GET; route_path := [Lit (js "strings"); Param];
       route_handler := get_string |};
    {| route_method := GET; route_path := [Lit (js "strings")];
       route_handler := get_strings IndexJs.applyFilters |};
    {| route_method := DELETE; route_path := [Lit (js "strings"); Param];
       route_handler := delete_string |};
    {| route_method := GET; route_path := []; route_handler := health |} ].

Definition Part000_routes_served `{JsEngine} : list route :=
  [ {| route_method := POST; route_path := [Lit (js "strings")];
       route_handler := post_strings |};
    {| route_method := GET; route_path := [Lit (js "strings"); Param];
       route_handler := get_string |};
    {| route_method := GET; route_path := [Lit (js "strings")];
       route_handler := get_strings Part000.applyFilters |};
    {| route_method := DELETE; route_path := [Lit (js "strings"); Param];
       route_handler := delete_string |};
    {| route_method := GET; route_path := []; route_handler := health |} ].

(** The filter set that [GET /strings] builds from the query parameters. *)
Definition query_filters (q : gmap jsstr jsstr) : FilterSet.t :=
  FilterSet.mk
    ((fun v => str_eqb v (js "true")) <$> q !! js "is_palindrome")
    (FStr <$> q !! js "min_length")
    (FStr <$> q !! js "max_length")
    (FStr <$> q !! js "word_count")
    (q !! js "contains_character").

(** [x] was not created before [y], by the binary order of the timestamps. *)
Definition not_older (x y : Row.t) : Prop :=
  str_ltb (Row.created_at x) (Row.created_at y) = false.

(** No row of the list is older than a row that comes after it. *)
Fixpoint newest_first (l : list Row.t) : Prop :=
  match l with
  | [] => True
  | x :: l' => Forall (not_older x) l' /\ newest_first l'
  end.

(** A filter set reduced to one of its keys. *)
Definition only_is_palindrome (f : FilterSet.t) : FilterSet.t :=
  FilterSet.mk (FilterSet.is_palindrome f) None None None None.
Definition only_min_length (f : FilterSet.t) : FilterSet.t :=
  FilterSet.mk None (FilterSet.min_length f) None None None.
Definition only_max_length (f : FilterSet.t) : FilterSet.t :=
  FilterSet.mk None None (FilterSet.max_length f) None None.
Definition only_word_count (f : FilterSet.t) : FilterSet.t :=
  FilterSet.mk None None None (FilterSet.word_count f) None.
Definition only_contains_character (f : FilterSet.t) : FilterSet.t :=
  FilterSet.mk None None None None (FilterSet.contains_character f).

(** The number of elements of [l] equal to [ch]. *)
Definition occurrences (ch : jsstr) (l : list jsstr) : nat :=
  length (List.filter (fun x => str_eqb x ch) l).

(** The number of words of [s]: the positions at which a code unit that is
    not white space follows white space or starts the string.  [in_word]
    tells that the previous code unit belonged to a word. *)
Fixpoint count_words (in_word : bool) (s : jsstr) : nat :=
  match s with
  | [] => 0
  | u :: s' =>
      if is_space u then count_words false s'
      else (if in_word then 0 else 1) + count_words true s'
  end.

(** The number of runs of white space that start in [s]; [in_sep] tells that
    the previous code unit was white space. *)
Fixpoint count_separators (in_sep : bool) (s : jsstr) : nat :=
  match s with
  | [] => 0
  | u :: s' =>
      if is_space u then (if in_sep then 0 else 1) + count_separators true s'
      else count_separators false s'
  end.

(** [s] is empty or ends with a code unit that is not white space. *)
Definition ends_in_word (s : jsstr) : Prop :=
  match last s with
  | Some c => is_space c = false
  | None => True
  end.

(** [s.isWellFormed()]: the string has no lone surrogate, that is, every
    element that the string iterator yields is a surrogate pair or a code
    unit that is not a surrogate. *)
Definition is_well_formed (s : jsstr) : bool :=
  forallb (fun cp =>
             match cp with
             | [u] => negb (is_high_surrogate u || is_low_surrogate u)
             | _ => true
             end)
    (code_points s).

(** The string that the request posts, if any, is well formed. *)
Definition posts_well_formed (req : request) : Prop :=
  match req_body_value req with
  | Some (JStr s) => is_well_formed s = true
  | _ => True
  end.

(** The tables that an application can be in when it only serves requests
    that satisfy [ok]. *)
Inductive reachable_by (ok : request -> Prop)
    (app : store -> jsstr -> request -> response * store) : store -> Prop :=
| reachable_by_empty : reachable_by ok app []
| reachable_by_step st now req :
    ok req -> reachable_by ok app st ->
    reachable_by ok app (snd (app st now req)).

(** * Properties *)

(** ** Strings *)

Section StringFacts.
Implicit Types s t p sub : jsstr.

Lemma str_eqb_eq s t : str_eqb s t = true <-> s = t.
Proof.
  revert t. induction s as [|a s IH]; intros [|b t]; simpl; try easy.
  rewrite andb_true_iff, N.eqb_eq, IH. split.
  - intros [-> ->]. reflexivity.
  - intros [= -> ->]. auto.
Qed.

Lemma str_eqb_refl s : str_eqb s s = true.
Proof. apply str_eqb_eq. reflexivity. Qed.

Lemma strip_prefix_spec p s r : strip_prefix p s = Some r <-> s = p ++ r.
Proof.
  revert s. induction p as [|a p IH]; intros s; simpl.
  - split; [intros [= ->] | intros ->]; reflexivity.
  - destruct s as [|b s]; [easy|].
    destruct (N.eqb_spec a b) as [->|Hne].
    + rewrite IH. split; [intros -> | intros [= ->]]; reflexivity.
    + split; [easy | intros [= -> _]; congruence].
Qed.

Lemma strip_prefix_app p r : strip_prefix p (p ++ r) = Some r.
Proof. apply strip_prefix_spec. reflexivity. Qed.

Lemma strip_prefix_None p s :
  strip_prefix p s = None <-> forall r, s <> p ++ r.
Proof.
  split.
  - intros Hn r ->. rewrite strip_prefix_app in Hn. discriminate.
  - intros Hall. destruct (strip_prefix p s) as [r|] eqn:E; [|reflexivity].
    apply strip_prefix_spec in E. destruct (Hall r E).
Qed.

(** [includes] is the substring relation. *)
Lemma includes_spec s sub :
  includes s sub = true <-> exists pre post, s = pre ++ sub ++ post.
Proof.
  induction s as [|a s IH]; simpl.
  - destruct (strip_prefix sub []) as [r|] eqn:E.
    + apply strip_prefix_spec in E. split; [|reflexivity].
      intros _. exists [], r. exact E.
    + split; [discriminate|]. intros (pre & post & Heq).
      destruct pre as [|x pre]; [|discriminate].
      simpl in Heq. rewrite Heq, strip_prefix_app in E. discriminate.
  - destruct (strip_prefix sub (a :: s)) as [r|] eqn:E.
    + apply strip_prefix_spec in E. split; [|reflexivity].
      intros _. exists [], r. exact E.
    + rewrite IH. split.
      * intros (pre & post & ->). exists (a :: pre), post. reflexivity.
      * intros (pre & post & Heq). destruct pre as [|x pre].
        -- simpl in Heq. rewrite Heq, strip_prefix_app in E. discriminate.
        -- injection Heq as _ ->. exists pre, post. reflexivity.
Qed.

Lemma includes_nil s : includes s [] = true.
Proof. apply includes_spec. exists [], s. reflexivity. Qed.

Lemma join_reverse_split_units s : join (reverse (split_units s)) = reverse s.
Proof.
  unfold join, split_units. induction s as [|a s IH]; [reflexivity|].
  simpl. rewrite !reverse_cons, concat_app, IH. simpl. reflexivity.
Qed.
End StringFacts.

(** ** The property set *)

Section AnalyzerFacts.
Context `{JsEngine}.

(** C6.  For every string [s], [is_palindrome] of the computed properties is
    true exactly when the lowercase form of [s], read code unit by code
    unit, is equal to its own reverse.  In particular it is true whenever
    that lowercase form has at most one code unit, which is the case of
    every string made of a single ASCII character. *)
Theorem C6_is_palindrome_iff_reverse :
  (forall s : jsstr,
      PropertySet.is_palindrome (analyze s) = true
      <-> reverse (toLowerCase s) = toLowerCase s)
  /\ (forall s : jsstr,
      (length (toLowerCase s) <= 1)%nat ->
      PropertySet.is_palindrome (analyze s) = true)
  /\ (forall u : N,
      (u < 128)%N -> PropertySet.is_palindrome (analyze [u]) = true).
Proof.
  assert (Hiff : forall s : jsstr,
             PropertySet.is_palindrome (analyze s) = true
             <-> reverse (toLowerCase s) = toLowerCase s).
  { intros s. unfold analyze. simpl.
    rewrite join_reverse_split_units, str_eqb_eq. split; congruence. }
  assert (Hshort : forall s : jsstr,
             (length (toLowerCase s) <= 1)%nat ->
             PropertySet.is_palindrome (analyze s) = true).
  { intros s Hlen. apply Hiff.
    destruct (toLowerCase s) as [|a [|b l]]; simpl in *; try reflexivity; lia. }
  split; [exact Hiff|]. split; [exact Hshort|].
  intros u Hu. apply Hshort.
  rewrite toLowerCase_ascii by (repeat constructor; exact Hu).
  simpl. lia.
Qed.

Lemma sum_counts_insert (m : gmap jsstr nat) (k : jsstr) (v : nat) :
  sum_counts (<[k := v]> m) + default 0 (m !! k) = v + sum_counts m.
Proof.
  unfold sum_counts.
  destruct (m !! k) as [c|] eqn:Hk; simpl.
  - rewrite <- (insert_delete_eq m k v).
    rewrite map_fold_insert_L;
      [| intros; lia | apply lookup_delete_eq].
    rewrite (map_fold_delete_L _ _ k c m); [lia | intros; lia | exact Hk].
  - rewrite map_fold_insert_L; [lia | intros; lia | exact Hk].
Qed.

Lemma or_zero_default (o : option nat) : or_zero o = default 0 o.
Proof. destruct o as [[|n]|]; reflexivity. Qed.

(** One turn of the counting loop adds one to the sum and the character to
    the keys. *)
Lemma count_loop_invariant (l : list jsstr) (m : gmap jsstr nat) :
  let m' := foldl (fun m ch => <[ch := or_zero (m !! ch) + 1]> m) m l in
  sum_counts m' = sum_counts m + length l
  /\ dom m' = dom m ∪ list_to_set l.
Proof.
  revert m. induction l as [|ch l IH]; intros m; simpl.
  - split; [lia|]. rewrite (right_id_L ∅ (∪)). reflexivity.
  - destruct (IH (<[ch := or_zero (m !! ch) + 1]> m)) as [Hsum Hdom].
    split.
    + rewrite Hsum.
      pose proof (sum_counts_insert m ch (or_zero (m !! ch) + 1)) as Hins.
      rewrite or_zero_default in *. lia.
    + rewrite Hdom, dom_insert_L.
      rewrite (comm_L (∪) {[ch]} (dom m)), (assoc_L (∪)). reflexivity.
Qed.

Lemma code_points_length_le (s : jsstr) :
  (length (code_points s) <= length s)%nat.
Proof.
  remember (length s) as n eqn:Hn.
  assert (Hle : (length s <= n)%nat) by lia. clear Hn.
  revert s Hle. induction n as [|n IH]; intros s Hle.
  - destruct s; simpl in *; lia.
  - destruct s as [|hi [|lo rest]]; simpl in *; try lia.
    destruct (is_high_surrogate hi && is_low_surrogate lo); simpl.
    + specialize (IH rest). lia.
    + specialize (IH (lo :: rest)). simpl in IH. lia.
Qed.

(** C10.  For every string [s], in the property set computed for [s]:
    [unique_characters] is the number of keys of [character_frequency_map];
    the counts of [character_frequency_map] add up to the number of code
    points of [s]; that number is at most [length], which counts UTF-16
    code units, and is smaller than it for some strings. *)
Theorem C10_frequency_map_invariants :
  (forall s : jsstr,
      let p := analyze s in
      PropertySet.unique_characters p = size (PropertySet.character_frequency_map p)
      /\ sum_counts (PropertySet.character_frequency_map p) = length (code_points s)
      /\ (length (code_points s) <= PropertySet.length p)%nat)
  /\ (exists s : jsstr,
      (length (code_points s) < PropertySet.length (analyze s))%nat).
Proof.
  split.
  - intros s. simpl.
    destruct (count_loop_invariant (code_points s) ∅) as [Hsum Hdom].
    fold (count_characters s) in Hsum, Hdom.
    split; [|split].
    + rewrite <- size_dom, Hdom, dom_empty_L, (left_id_L ∅ (∪)). reflexivity.
    + rewrite Hsum. unfold sum_counts. rewrite map_fold_empty. lia.
    + apply code_points_length_le.
  - exists [55357%N; 56832%N]. simpl. lia.
Qed.
End AnalyzerFacts.

(** ** The filter predicate *)

Section NumberFacts.
Lemma num_lt_NaN_r x : num_lt x NaN = false.
Proof. destruct x; reflexivity. Qed.

Lemma num_gt_NaN_r x : num_gt x NaN = false.
Proof. reflexivity. Qed.

Lemma num_strict_eq_NaN_r x : num_strict_eq x NaN = false.
Proof. destruct x; reflexivity. Qed.

(** On counters the comparisons are those of the naturals. *)
Lemma num_lt_of_nat n m : num_lt (of_nat n) (of_nat m) = (n <? m)%nat.
Proof.
  unfold num_lt, of_nat, of_Z, Qlt_bool, Qle_bool. simpl.
  rewrite !Z.mul_1_r.
  destruct (Z.leb_spec (Z.of_nat m) (Z.of_nat n)), (Nat.ltb_spec n m);
    simpl; try reflexivity; lia.
Qed.

Lemma num_strict_eq_of_nat n m :
  num_strict_eq (of_nat n) (of_nat m) = (n =? m)%nat.
Proof.
  unfold num_strict_eq, of_nat, of_Z, Qeq_bool. simpl.
  rewrite !Z.mul_1_r.
  destruct (Z.eqb_spec (Z.of_nat n) (Z.of_nat m)), (Nat.eqb_spec n m);
    try reflexivity; lia.
Qed.
End NumberFacts.

Section FilterFacts.
Context `{JsEngine}.
Implicit Types (f : FilterSet.t) (r : Row.t) (rows : list Row.t).

Lemma filter_all rows (P : Row.t -> bool) :
  (forall r, P r = true) -> List.filter P rows = rows.
Proof.
  intros HP. induction rows as [|r rows IH]; simpl; [reflexivity|].
  rewrite HP, IH. reflexivity.
Qed.

(** C9.  In both files the filter set without any key accepts every row,
    and [applyFilters] with it gives back the list of rows it received. *)
Theorem C9_empty_filter_is_identity :
  (forall r, IndexJs.matches FilterSet.empty r = true)
  /\ (forall rows, IndexJs.applyFilters rows FilterSet.empty = rows)
  /\ (forall r, Part000.matches FilterSet.empty r = true)
  /\ (forall rows, Part000.applyFilters rows FilterSet.empty = rows).
Proof.
  repeat split; try reflexivity; intros rows;
    apply filter_all; reflexivity.
Qed.

(** The query [?min_length=5&is_palindrome=true] selects, in both files and
    under every engine, the palindromes of length at least 5. *)
Lemma filter_conjunction r :
  let f := FilterSet.mk (Some true) (Some (FStr (js "5"))) None None None in
  let p := Row.properties r in
  IndexJs.matches f r
    = PropertySet.is_palindrome p && (5 <=? PropertySet.length p)%nat
  /\ Part000.matches f r
    = PropertySet.is_palindrome p && (5 <=? PropertySet.length p)%nat.
Proof.
  assert (H5 : StringToNumber (js "5") = of_nat 5).
  { apply (StringToNumber_digits (js "5")); [discriminate | reflexivity |].
    vm_compute. discriminate. }
  unfold IndexJs.matches, Part000.matches, defined_and.
  cbn [FilterSet.is_palindrome FilterSet.min_length FilterSet.max_length
       FilterSet.word_count FilterSet.contains_character Number].
  rewrite H5, num_lt_of_nat, Nat.ltb_antisym.
  destruct (PropertySet.is_palindrome (Row.properties r)),
    (5 <=? PropertySet.length (Row.properties r))%nat; auto.
Qed.

(** A query parameter that starts with a letter other than [I] converts to
    [NaN] under every engine. *)
Lemma Number_of_word u s :
  is_ascii_letter u = true -> u <> 73%N -> Number (FStr (u :: s)) = NaN.
Proof. apply StringToNumber_letter. Qed.

(** C5, as the code has it.  In both files, when the text given for a
    numeric filter converts to [NaN]: as [min_length] or as [max_length] it
    rejects no row (the row is accepted exactly when it is accepted without
    that filter), and as [word_count] it rejects every row.  Nothing is
    thrown in either case. *)
Theorem C5_non_numeric_filters f r s :
  StringToNumber s = NaN ->
  (FilterSet.min_length f = Some (FStr s) ->
     IndexJs.matches f r = IndexJs.matches (without_min_length f) r
     /\ Part000.matches f r = Part000.matches (without_min_length f) r)
  /\ (FilterSet.max_length f = Some (FStr s) ->
     IndexJs.matches f r = IndexJs.matches (without_max_length f) r
     /\ Part000.matches f r = Part000.matches (without_max_length f) r)
  /\ (FilterSet.word_count f = Some (FStr s) ->
     IndexJs.matches f r = false /\ Part000.matches f r = false).
Proof.
  intros Hnan. destruct f as [ip mn mx wc cc]; simpl.
  unfold IndexJs.matches, Part000.matches, without_min_length,
    without_max_length; simpl.
  split; [|split]; intros ->; simpl; rewrite Hnan;
    rewrite ?num_lt_NaN_r, ?num_gt_NaN_r, ?num_strict_eq_NaN_r; simpl;
    (split;
     repeat match goal with
            | |- context [if ?b then _ else _] => destruct b
            end; reflexivity).
Qed.

(** C2, as the code has it.  With [contains_character] present, a row is
    accepted exactly when it is accepted without that key and
    - in the second copy of the program, the lowercased value contains the
      lowercased needle;
    - in [index.js], the needle is not empty and the value contains the
      needle, case being significant. *)
Theorem C2_contains_character f r ch :
  FilterSet.contains_character f = Some ch ->
  Part000.matches f r
    = Part000.matches (without_contains_character f) r
      && includes (toLowerCase (Row.value r)) (toLowerCase ch)
  /\ IndexJs.matches f r
    = IndexJs.matches (without_contains_character f) r
      && (negb (Nat.eqb (length ch) 0) && includes (Row.value r) ch).
Proof.
  destruct f as [ip mn mx wc cc]; simpl. intros ->.
  unfold IndexJs.matches, Part000.matches, without_contains_character; simpl.
  split.
  - assert (Hch : (if truthy ch
                   then if negb (includes (toLowerCase (Row.value r)) (toLowerCase ch))
                        then false else true
                   else true)
                  = includes (toLowerCase (Row.value r)) (toLowerCase ch)).
    { destruct ch as [|c ch]; simpl.
      - rewrite (toLowerCase_ascii []) by constructor. simpl.
        symmetry. apply includes_nil.
      - destruct (includes _ _); reflexivity. }
    rewrite Hch.
    repeat match goal with
           | |- context [if ?b then _ else _] => destruct b
           end; reflexivity.
  - assert (Hch : (if Nat.eqb (length ch) 0 then false
                   else if negb (includes (Row.value r) ch) then false else true)
                  = negb (Nat.eqb (length ch) 0) && includes (Row.value r) ch).
    { destruct (Nat.eqb (length ch) 0); simpl; [reflexivity|].
      destruct (includes _ _); reflexivity. }
    rewrite Hch.
    repeat match goal with
           | |- context [if ?b then _ else _] => destruct b
           end; reflexivity.
Qed.
End FilterFacts.

(** ** Regular expressions *)

Section RegexFacts.
Implicit Types s lit pre post ds g : jsstr.

Lemma take_digits_split s :
  exists rest, s = take_digits s ++ rest
               /\ forallb is_digit (take_digits s) = true
               /\ starts_with_digit rest = false.
Proof.
  induction s as [|d s (rest & Heq & Hall & Hrest)]; simpl.
  - exists []. auto.
  - destruct (is_digit d) eqn:Hd.
    + exists rest. simpl. rewrite Hd, Hall. split; [congruence | auto].
    + exists (d :: s). simpl. auto.
Qed.

Lemma take_digits_app ds post :
  forallb is_digit ds = true -> starts_with_digit post = false ->
  take_digits (ds ++ post) = ds.
Proof.
  intros Hds Hpost. induction ds as [|d ds IH]; simpl in *.
  - destruct post as [|c post]; simpl in *; [reflexivity|].
    rewrite Hpost. reflexivity.
  - apply andb_true_iff in Hds as [Hd Hds]. rewrite Hd, IH; auto.
Qed.

Lemma regex_search_None (at_start : jsstr -> option jsstr) s :
  regex_search at_start s = None <-> forall k, at_start (drop k s) = None.
Proof.
  induction s as [|a s IH]; simpl.
  - destruct (at_start []) eqn:E.
    + split; [discriminate|]. intros Hk. specialize (Hk 0%nat). simpl in Hk.
      congruence.
    + split; [|reflexivity]. intros _ k. rewrite drop_nil. exact E.
  - destruct (at_start (a :: s)) eqn:E.
    + split; [discriminate|]. intros Hk. specialize (Hk 0%nat). simpl in Hk.
      congruence.
    + rewrite IH. split.
      * intros Hk [|k]; [exact E | apply Hk].
      * intros Hk k. apply (Hk (S k)).
Qed.

(** The leftmost position at which the anchored match succeeds decides the
    result. *)
Lemma regex_search_leftmost (at_start : jsstr -> option jsstr) pre s g :
  (forall k, (k < length pre)%nat -> at_start (drop k (pre ++ s)) = None) ->
  at_start s = Some g ->
  regex_search at_start (pre ++ s) = Some g.
Proof.
  intros Hbefore Hat. induction pre as [|a pre IH]; simpl.
  - destruct s; simpl; rewrite Hat; reflexivity.
  - assert (H0 : at_start (a :: pre ++ s) = None)
      by (apply (Hbefore 0%nat); simpl; lia).
    rewrite H0. apply IH.
    intros k Hk. apply (Hbefore (S k)). simpl. lia.
Qed.

Lemma regex_search_Some (at_start : jsstr -> option jsstr) s g :
  regex_search at_start s = Some g ->
  exists k, at_start (drop k s) = Some g.
Proof.
  induction s as [|a s IH]; simpl.
  - destruct (at_start []) eqn:E; [|discriminate].
    intros [= <-]. exists 0%nat. exact E.
  - destruct (at_start (a :: s)) eqn:E.
    + intros [= <-]. exists 0%nat. exact E.
    + intros Hs. destruct (IH Hs) as [k Hk]. exists (S k). exact Hk.
Qed.

Lemma literal_then_digits_Some lit s g :
  literal_then_digits lit s = Some g <->
  exists post, s = lit ++ g ++ post /\ g <> []
               /\ forallb is_digit g = true /\ starts_with_digit post = false.
Proof.
  unfold literal_then_digits. split.
  - destruct (strip_prefix lit s) as [rest|] eqn:E; [|discriminate].
    apply strip_prefix_spec in E. subst s.
    destruct (take_digits_split rest) as (post & Heq & Hall & Hpost).
    destruct (take_digits rest) as [|d ds] eqn:Ht; [discriminate|].
    intros [= <-]. exists post. rewrite <- Heq. auto.
  - intros (post & -> & Hne & Hall & Hpost).
    rewrite strip_prefix_app, take_digits_app by assumption.
    destruct g; congruence.
Qed.

Lemma literal_then_digits_None lit s :
  literal_then_digits lit s = None <->
  forall c rest, s = lit ++ c :: rest -> is_digit c = false.
Proof.
  unfold literal_then_digits. split.
  - intros Hn c rest ->. rewrite strip_prefix_app in Hn. simpl in Hn.
    destruct (is_digit c); [discriminate | reflexivity].
  - intros Hall. destruct (strip_prefix lit s) as [rest|] eqn:E; [|reflexivity].
    apply strip_prefix_spec in E.
    destruct rest as [|c rest]; [reflexivity|]. simpl.
    rewrite (Hall c rest E). reflexivity.
Qed.

Lemma literal_then_word_None lit s :
  literal_then_word lit s = None <->
  forall c rest, s = lit ++ c :: rest -> is_word c = false.
Proof.
  unfold literal_then_word. split.
  - intros Hn c rest ->. rewrite strip_prefix_app in Hn.
    destruct (is_word c); [discriminate | reflexivity].
  - intros Hall. destruct (strip_prefix lit s) as [rest|] eqn:E; [|reflexivity].
    apply strip_prefix_spec in E.
    destruct rest as [|c rest]; [reflexivity|].
    rewrite (Hall c rest E). reflexivity.
Qed.

Lemma literal_then_word_Some lit s g :
  literal_then_word lit s = Some g -> truthy g = true.
Proof.
  unfold literal_then_word.
  destruct (strip_prefix lit s) as [[|c rest]|]; try discriminate.
  destruct (is_word c); [|discriminate]. intros [= <-]. reflexivity.
Qed.

(** A pattern [lit(cls)] matches somewhere exactly when the search
    succeeds. *)
Lemma search_digits_None lit s :
  regex_search (literal_then_digits lit) s = None
  <-> ~ contains_then is_digit s lit.
Proof.
  rewrite regex_search_None. split.
  - intros Hk (pre & c & post & -> & Hc).
    specialize (Hk (length pre)). rewrite drop_app_length in Hk.
    rewrite literal_then_digits_None in Hk.
    rewrite (Hk c post eq_refl) in Hc. discriminate.
  - intros Hno k. apply literal_then_digits_None. intros c rest Heq.
    apply not_true_is_false. intros Hc. apply Hno.
    exists (take k s), c, rest. rewrite <- Heq, take_drop. auto.
Qed.

Lemma search_word_None lit s :
  regex_search (literal_then_word lit) s = None
  <-> ~ contains_then is_word s lit.
Proof.
  rewrite regex_search_None. split.
  - intros Hk (pre & c & post & -> & Hc).
    specialize (Hk (length pre)). rewrite drop_app_length in Hk.
    rewrite literal_then_word_None in Hk.
    rewrite (Hk c post eq_refl) in Hc. discriminate.
  - intros Hno k. apply literal_then_word_None. intros c rest Heq.
    apply not_true_is_false. intros Hc. apply Hno.
    exists (take k s), c, rest. rewrite <- Heq, take_drop. auto.
Qed.

Lemma search_digits_Some lit s g :
  regex_search (literal_then_digits lit) s = Some g ->
  g <> [] /\ forallb is_digit g = true.
Proof.
  intros Hs. apply regex_search_Some in Hs as [k Hk].
  apply literal_then_digits_Some in Hk as (post & _ & Hne & Hall & _). auto.
Qed.

Lemma includes_false s sub : includes s sub = false <-> ~ contains s sub.
Proof.
  unfold contains. rewrite <- includes_spec. destruct (includes s sub); split;
    congruence.
Qed.

Lemma parseInt_digits ds :
  ds <> [] -> forallb is_digit ds = true ->
  parseInt (Some ds) = of_Z (digits_value ds).
Proof.
  intros Hne Hall. destruct ds as [|d ds]; [congruence|].
  simpl in Hall. apply andb_true_iff in Hall as [Hd Hall].
  assert (Hsp : is_space d = false /\ (d =? 45)%N = false /\ (d =? 43)%N = false).
  { assert (Hcases : (d = 48 \/ d = 49 \/ d = 50 \/ d = 51 \/ d = 52 \/ d = 53
                      \/ d = 54 \/ d = 55 \/ d = 56 \/ d = 57)%N).
    { unfold is_digit, in_range in Hd.
      apply andb_true_iff in Hd as [H1 H2]. apply N.leb_le in H1, H2. lia. }
    repeat destruct Hcases as [-> | Hcases]; try subst d; auto. }
  destruct Hsp as (Hs & Hm & Hp).
  unfold parseInt. simpl. rewrite Hs, Hm, Hp. simpl. rewrite Hd.
  replace (take_digits ds) with ds.
  - reflexivity.
  - symmetry. rewrite <- (app_nil_r ds) at 1. apply take_digits_app; auto.
Qed.
End RegexFacts.

(** ** The natural-language interpreter *)

Section InterpreterFacts.
Context `{JsEngine}.
Implicit Types lower query lit g : jsstr.

Lemma literal_then_digits_prefix lit s g :
  literal_then_digits lit s = Some g -> exists rest, s = lit ++ rest.
Proof.
  unfold literal_then_digits.
  destruct (strip_prefix lit s) as [rest|] eqn:E; [|discriminate].
  intros _. exists rest. apply strip_prefix_spec, E.
Qed.

Lemma literal_then_word_prefix lit s g :
  literal_then_word lit s = Some g -> exists rest, s = lit ++ rest.
Proof.
  unfold literal_then_word.
  destruct (strip_prefix lit s) as [rest|] eqn:E; [|discriminate].
  intros _. exists rest. apply strip_prefix_spec, E.
Qed.

(** Where a pattern [lit(...)] matches, the text includes every prefix of
    [lit]: the guards [lower.includes(...)] of [index.js] hold whenever the
    regular expression they protect matches. *)
Lemma search_includes (at_start : jsstr -> option jsstr) lit tl s g :
  (forall t g', at_start t = Some g' -> exists rest, t = (lit ++ tl) ++ rest) ->
  regex_search at_start s = Some g -> includes s lit = true.
Proof.
  intros Hpre Hs. apply regex_search_Some in Hs as [k Hk].
  apply Hpre in Hk as [rest Hrest]. apply includes_spec.
  exists (take k s), (tl ++ rest).
  rewrite <- (take_drop k s) at 1. rewrite Hrest, <- !app_assoc. reflexivity.
Qed.

(** What [parse_query] of [index.js] computes, key by key. *)
Lemma IndexJs_parse_query_eq lower :
  IndexJs.parse_query lower =
  FilterSet.mk
    (if includes lower (js "palindromic") then Some true else None)
    (match regex_search (literal_then_digits (js "longer than ")) lower with
     | Some g => Some (FNum (Finite (inject_Z (digits_value g) + 1)))
     | None => None
     end)
    None
    (if includes lower (js "single word") then Some (FNum (of_Z 1)) else None)
    (if includes lower (js "containing the first vowel") then Some (js "a")
     else regex_search (literal_then_word (js "containing the letter ")) lower).
Proof.
  unfold IndexJs.parse_query.
  destruct (regex_search (literal_then_digits (js "longer than ")) lower)
    as [g|] eqn:Hlonger.
  - rewrite (search_includes _ (js "longer than") [32%N] lower g
               (literal_then_digits_prefix _) Hlonger).
    destruct (search_digits_Some _ _ _ Hlonger) as [Hne Hall].
    rewrite (parseInt_digits g Hne Hall).
    destruct (regex_search (literal_then_word (js "containing the letter ")) lower)
      as [ch|] eqn:Hletter.
    + rewrite (search_includes _ (js "containing the letter") [32%N] lower ch
                 (literal_then_word_prefix _) Hletter).
      destruct (regex_search_Some _ _ _ Hletter) as [k Hk].
      rewrite (literal_then_word_Some _ _ _ Hk).
      destruct (includes lower (js "palindromic")),
        (includes lower (js "single word")),
        (includes lower (js "containing the first vowel")); reflexivity.
    + destruct (includes lower (js "palindromic")),
        (includes lower (js "single word")),
        (includes lower (js "containing the letter")),
        (includes lower (js "containing the first vowel")); reflexivity.
  - simpl parseInt. simpl isNaN.
    destruct (regex_search (literal_then_word (js "containing the letter ")) lower)
      as [ch|] eqn:Hletter.
    + rewrite (search_includes _ (js "containing the letter") [32%N] lower ch
                 (literal_then_word_prefix _) Hletter).
      destruct (regex_search_Some _ _ _ Hletter) as [k Hk].
      rewrite (literal_then_word_Some _ _ _ Hk).
      destruct (includes lower (js "palindromic")),
        (includes lower (js "longer than")),
        (includes lower (js "single word")),
        (includes lower (js "containing the first vowel")); reflexivity.
    + destruct (includes lower (js "palindromic")),
        (includes lower (js "longer than")),
        (includes lower (js "single word")),
        (includes lower (js "containing the letter")),
        (includes lower (js "containing the first vowel")); reflexivity.
Qed.

(** What [parse_query] of the second copy computes, key by key. *)
Lemma Part000_parse_query_eq lower :
  Part000.parse_query lower =
  FilterSet.mk
    (if includes lower (js "palindrome") || includes lower (js "palindromic")
     then Some true else None)
    (match regex_search (literal_then_digits (js "longer than ")) lower with
     | Some g => Some (FNum (Finite (inject_Z (digits_value g) + 1)))
     | None => None
     end)
    (match regex_search (literal_then_digits (js "shorter than ")) lower with
     | Some g => Some (FNum (Finite (inject_Z (digits_value g) - 1)))
     | None => None
     end)
    (if includes lower (js "single word") then Some (FNum (of_Z 1)) else None)
    (if includes lower (js "containing the first vowel") then Some (js "a")
     else regex_search (literal_then_word (js "containing the letter ")) lower).
Proof.
  unfold Part000.parse_query.
  destruct (regex_search (literal_then_digits (js "longer than ")) lower)
    as [g1|] eqn:Hlonger;
    [ destruct (search_digits_Some _ _ _ Hlonger) as [Hne1 Hall1];
      rewrite (parseInt_digits g1 Hne1 Hall1) | ];
    (destruct (regex_search (literal_then_digits (js "shorter than ")) lower)
      as [g2|] eqn:Hshorter;
     [ destruct (search_digits_Some _ _ _ Hshorter) as [Hne2 Hall2];
       rewrite (parseInt_digits g2 Hne2 Hall2) | ]);
    destruct (includes lower (js "palindrome") || includes lower (js "palindromic")),
      (includes lower (js "single word")),
      (regex_search (literal_then_word (js "containing the letter ")) lower),
      (includes lower (js "containing the first vowel")); reflexivity.
Qed.
Lemma includes_true lower sub : includes lower sub = true <-> contains lower sub.
Proof. apply includes_spec. Qed.

(** C3, as the code has it.  With [lower] the lowercased query: the second
    copy of the program sets [is_palindrome] to [true] when [lower]
    contains 'palindrome' or 'palindromic'; [index.js] sets it when [lower]
    contains 'palindromic' and leaves the key out otherwise. *)
Theorem C3_palindrome_phrases query :
  let lower := toLowerCase query in
  (contains lower (js "palindrome") \/ contains lower (js "palindromic") ->
     FilterSet.is_palindrome (Part000.parse_query lower) = Some true)
  /\ (contains lower (js "palindromic") ->
     FilterSet.is_palindrome (IndexJs.parse_query lower) = Some true)
  /\ (~ contains lower (js "palindromic") ->
     FilterSet.is_palindrome (IndexJs.parse_query lower) = None).
Proof.
  intros lower.
  rewrite Part000_parse_query_eq, IndexJs_parse_query_eq. simpl.
  split; [|split].
  - intros [Hc | Hc]; apply includes_true in Hc; rewrite Hc;
      [|rewrite orb_true_r]; reflexivity.
  - intros Hc. apply includes_true in Hc. rewrite Hc. reflexivity.
  - intros Hc. apply includes_false in Hc. rewrite Hc. reflexivity.
Qed.

(** C4, as the code has it.  Let the lowercased query be
    [pre ++ 'shorter than ' ++ ds ++ post], where [ds] is a non-empty run of
    decimal digits that [post] does not continue, and no occurrence of
    'shorter than ' followed by a digit starts further left.  With [N] the
    number that [ds] denotes, [N] at most 2^53 (the range in which the
    source's arithmetic on doubles is exact), the second copy of the
    program sets [max_length] to [N - 1].  [index.js] has no such pattern:
    it never sets [max_length]. *)
Theorem C4_shorter_than :
  (forall query pre ds post,
      toLowerCase query = pre ++ js "shorter than " ++ ds ++ post ->
      ds <> [] ->
      forallb is_digit ds = true ->
      starts_with_digit post = false ->
      (forall pre' c post',
          toLowerCase query = pre' ++ js "shorter than " ++ c :: post' ->
          is_digit c = true -> (length pre <= length pre')%nat) ->
      (digits_value ds <= 2 ^ 53)%Z ->
      FilterSet.max_length (Part000.parse_query (toLowerCase query))
        = Some (FNum (Finite (inject_Z (digits_value ds) - 1))))
  /\ (forall lower, FilterSet.max_length (IndexJs.parse_query lower) = None).
Proof.
  split.
  - intros query pre ds post Hlower Hne Hall Hpost Hleft _.
    rewrite Part000_parse_query_eq. simpl.
    assert (Hs : regex_search (literal_then_digits (js "shorter than "))
                   (toLowerCase query) = Some ds).
    { rewrite Hlower at 1. apply regex_search_leftmost.
      - intros k Hk. rewrite <- Hlower.
        apply literal_then_digits_None. intros c rest Heq.
        apply not_true_is_false. intros Hc.
        assert (Hlen : (length pre <= length (take k (toLowerCase query)))%nat).
        { apply (Hleft _ c rest); [|exact Hc].
          rewrite <- Heq, take_drop. reflexivity. }
        rewrite length_take in Hlen. lia.
      - apply literal_then_digits_Some. exists post. auto. }
    rewrite Hs. reflexivity.
  - intros lower. rewrite IndexJs_parse_query_eq. reflexivity.
Qed.
Lemma search_digits_contains lit s g :
  regex_search (literal_then_digits lit) s = Some g ->
  contains_then is_digit s lit.
Proof.
  intros Hs. destruct (regex_search_Some _ _ _ Hs) as [k Hk].
  apply literal_then_digits_Some in Hk as (post & Heq & Hne & Hall & _).
  destruct g as [|c ds]; [congruence|].
  simpl in Hall. apply andb_true_iff in Hall as [Hc _].
  exists (take k s), c, (ds ++ post). split; [|exact Hc].
  rewrite <- (take_drop k s) at 1. rewrite Heq. reflexivity.
Qed.

Lemma search_word_contains lit s g :
  regex_search (literal_then_word lit) s = Some g ->
  contains_then is_word s lit.
Proof.
  intros Hs. destruct (regex_search_Some _ _ _ Hs) as [k Hk].
  unfold literal_then_word in Hk.
  destruct (strip_prefix lit (drop k s)) as [[|c rest]|] eqn:E; try discriminate.
  destruct (is_word c) eqn:Hc; [|discriminate].
  apply strip_prefix_spec in E.
  exists (take k s), c, rest. split; [|exact Hc].
  rewrite <- (take_drop k s) at 1. rewrite E. reflexivity.
Qed.

(** Each condition of the parsers is decided and related to the phrase it
    stands for. *)
Ltac decide_phrases lower :=
  repeat match goal with
    | |- context [includes lower ?p] =>
        let E := fresh "E" in
        destruct (includes lower p) eqn:E;
        [apply includes_true in E | apply includes_false in E]
    | |- context [regex_search (literal_then_digits ?lit) lower] =>
        let E := fresh "E" in
        destruct (regex_search (literal_then_digits lit) lower) eqn:E;
        [apply search_digits_contains in E | apply search_digits_None in E]
    | |- context [regex_search (literal_then_word ?lit) lower] =>
        let E := fresh "E" in
        destruct (regex_search (literal_then_word lit) lower) eqn:E;
        [apply search_word_contains in E | apply search_word_None in E]
    end.

Lemma IndexJs_keys_length_zero lower :
  FilterSet.keys_length (IndexJs.parse_query lower) = 0%nat
  <-> ~ recognized_by_index_js lower.
Proof.
  rewrite IndexJs_parse_query_eq.
  unfold recognized_by_index_js, FilterSet.keys_length. simpl.
  decide_phrases lower; simpl;
    (split; [intros ?; try discriminate; tauto
            | intros ?; try reflexivity; exfalso; tauto]).
Qed.

Lemma Part000_keys_length_zero lower :
  FilterSet.keys_length (Part000.parse_query lower) = 0%nat
  <-> ~ recognized_patterns lower.
Proof.
  rewrite Part000_parse_query_eq.
  unfold recognized_patterns, FilterSet.keys_length. simpl.
  decide_phrases lower; simpl;
    (split; [intros ?; try discriminate; tauto
            | intros ?; try reflexivity; exfalso; tauto]).
Qed.

(** C7, as the code has it.  On a query that is present and not empty, the
    second copy of the program answers 400 'Unable to parse natural language
    query' exactly when none of the six recognized patterns of the
    specification occurs in the lowercased query; [index.js] answers it
    exactly when none of the five patterns that it tests occurs, so a query
    that only says 'palindrome' or 'shorter than N' is unparsable there.
    Whenever the route answers 200, in either file, the filter set it
    reports has at least one key.  The patterns of [index.js] are among the
    six. *)
Theorem C7_unparsable_iff_no_pattern params st now req :
  (forall query,
      req_query req !! js "query" = Some query -> query <> [] ->
      (IndexJs.filter_by_natural_language params st now req
         = Responded {| status := 400; payload := Error UnableToParse |} st
       <-> ~ recognized_by_index_js (toLowerCase query))
      /\ (Part000.filter_by_natural_language params st now req
         = Responded {| status := 400; payload := Error UnableToParse |} st
       <-> ~ recognized_patterns (toLowerCase query)))
  /\ (forall r st',
      IndexJs.filter_by_natural_language params st now req = Responded r st'
      \/ Part000.filter_by_natural_language params st now req = Responded r st' ->
      status r = 200%nat ->
      exists data count original filters,
        payload r = Interpreted data count original filters
        /\ FilterSet.keys_length filters <> 0%nat)
  /\ (forall lower, recognized_by_index_js lower -> recognized_patterns lower).
Proof.
  split; [|split].
  - intros query Hq Hne.
    unfold IndexJs.filter_by_natural_language,
      Part000.filter_by_natural_language.
    rewrite Hq. destruct query as [|u query]; [congruence|].
    rewrite <- IndexJs_keys_length_zero, <- Part000_keys_length_zero.
    split.
    + destruct (FilterSet.keys_length (IndexJs.parse_query _)); simpl;
        split; congruence.
    + destruct (FilterSet.keys_length (Part000.parse_query _)); simpl;
        split; congruence.
  - intros r st'.
    unfold IndexJs.filter_by_natural_language,
      Part000.filter_by_natural_language.
    destruct (req_query req !! js "query") as [[|u query]|];
      try (intros [[= <- _] | [= <- _]]; discriminate).
    intros [Hr | Hr].
    + destruct (FilterSet.keys_length (IndexJs.parse_query _)) eqn:Hk;
        simpl in Hr; injection Hr as <- _; [discriminate|].
      intros _. simpl. do 4 eexists. split; [reflexivity|]. congruence.
    + destruct (FilterSet.keys_length (Part000.parse_query _)) eqn:Hk;
        simpl in Hr; injection Hr as <- _; [discriminate|].
      intros _. simpl. do 4 eexists. split; [reflexivity|]. congruence.
  - unfold recognized_by_index_js, recognized_patterns. tauto.
Qed.
End InterpreterFacts.

(** ** The table and the routes *)

Create HintDb handlers.

Section StoreFacts.
Context `{JsEngine}.
Implicit Types (st : store) (value id now : jsstr).

Lemma db_get_Some st id r :
  db_get st id = Some r -> In r st /\ Row.id r = id.
Proof.
  unfold db_get. intros Hf. apply find_some in Hf as [Hin Heq].
  apply str_eqb_eq in Heq. auto.
Qed.

Lemma db_get_present st value :
  keyed_by_digest st -> present st value ->
  exists r, db_get st (sha256_hex value) = Some r.
Proof.
  intros Hok (r & Hin & Hval). unfold db_get.
  destruct (List.find _ st) as [r'|] eqn:Hf; [eauto|].
  pose proof (find_none _ _ Hf r Hin) as Hno. simpl in Hno.
  rewrite (Hok r Hin), Hval, str_eqb_refl in Hno. discriminate.
Qed.

Lemma db_get_app_new st r :
  db_get st (Row.id r) = None -> db_get (st ++ [r]) (Row.id r) = Some r.
Proof.
  unfold db_get. induction st as [|x st IH]; simpl.
  - rewrite str_eqb_refl. reflexivity.
  - destruct (str_eqb (Row.id x) (Row.id r)); [discriminate | exact IH].
Qed.

(** A [POST /strings] of a string whose digest is already a key answers 409
    and writes nothing. *)
Lemma post_strings_conflict params st now req value r :
  req_body_value req = Some (JStr value) ->
  db_get st (sha256_hex value) = Some r ->
  post_strings params st now req
  = Responded {| status := 409; payload := Error StringAlreadyExists |} st.
Proof.
  intros Hbody Hget. unfold post_strings. rewrite Hbody. simpl.
  rewrite Hget. reflexivity.
Qed.

Lemma post_strings_preserves : preserves keyed_by_digest post_strings.
Proof.
  intros params st now req r st' Hok. unfold post_strings.
  destruct (req_body_value req) as [[| | |s|]|]; simpl;
    try (intros [= <- <-]; exact Hok).
  destruct (db_get st (sha256_hex s)) eqn:Hget;
    [intros [= <- <-]; exact Hok|].
  unfold db_insert. simpl. rewrite Hget. intros [= <- <-].
  intros x Hx. apply in_app_or in Hx as [Hx | [<- | []]]; [auto | reflexivity].
Qed.

Lemma get_string_preserves P : preserves P get_string.
Proof.
  intros params st now req r st' Hok. unfold get_string.
  destruct (head params) as [[|u raw]|]; try (intros [= <- <-]; exact Hok).
  destruct (decodeURIComponent _); [|discriminate].
  destruct (db_get st _); intros [= <- <-]; exact Hok.
Qed.

Lemma delete_string_preserves : preserves keyed_by_digest delete_string.
Proof.
  intros params st now req r st' Hok. unfold delete_string.
  destruct (decodeURIComponent _); [|discriminate].
  destruct (db_get st _); intros [= <- <-]; [|exact Hok].
  intros x Hx. apply filter_In in Hx as [Hx _]. auto.
Qed.

Lemma get_strings_preserves P applyFilters : preserves P (get_strings applyFilters).
Proof. intros params st now req r st' Hok [= <- <-]. exact Hok. Qed.

Lemma health_preserves P : preserves P health.
Proof. intros params st now req r st' Hok [= <- <-]. exact Hok. Qed.

Lemma IndexJs_natural_language_preserves P :
  preserves P IndexJs.filter_by_natural_language.
Proof.
  intros params st now req r st' Hok. unfold IndexJs.filter_by_natural_language.
  destruct (req_query req !! js "query") as [[|u q]|];
    try (intros [= <- <-]; exact Hok).
  destruct (Nat.eqb _ _); intros [= <- <-]; exact Hok.
Qed.

Lemma Part000_natural_language_preserves P :
  preserves P Part000.filter_by_natural_language.
Proof.
  intros params st now req r st' Hok. unfold Part000.filter_by_natural_language.
  destruct (req_query req !! js "query") as [[|u q]|];
    try (intros [= <- <-]; exact Hok).
  destruct (Nat.eqb _ _); intros [= <- <-]; exact Hok.
Qed.

(** What every handler of a router keeps, the router keeps. *)
Lemma run_preserves P routes st now req :
  Forall (fun r => preserves P (route_handler r)) routes ->
  P st -> P (snd (run routes st now req)).
Proof.
  intros Hall Hst. unfold run.
  destruct (dispatch routes st now req) as [r st'|] eqn:Hd; simpl; [|exact Hst].
  revert Hd. induction Hall as [|rt routes Hrt Hall IH]; simpl.
  - intros [= <- <-]. exact Hst.
  - destruct (method_eqb _ _); [|exact IH].
    destruct (match_path _ _) as [params|]; [|exact IH].
    intros Hh. exact (Hrt params st now req r st' Hst Hh).
Qed.

#[local] Hint Resolve post_strings_preserves get_string_preserves
  delete_string_preserves get_strings_preserves health_preserves
  IndexJs_natural_language_preserves Part000_natural_language_preserves
  : handlers.

Lemma reachable_keyed_by_digest st :
  reachable IndexJs.app st \/ reachable Part000.app st -> keyed_by_digest st.
Proof.
  intros [Hr | Hr]; induction Hr as [|st now req Hr IH];
    try (intros r []);
    unfold IndexJs.app, Part000.app;
    (apply run_preserves; [|exact IH]);
    repeat constructor; simpl; auto with handlers.
Qed.

(** C8.  In a table that the application can reach, a [POST /strings] of a
    value that is already stored answers 409 and leaves the table as it
    was; this holds for both files. *)
Theorem C8_duplicate_insert_conflicts st value now :
  reachable IndexJs.app st \/ reachable Part000.app st ->
  present st value ->
  IndexJs.app st now (post_request value)
    = ({| status := 409; payload := Error StringAlreadyExists |}, st)
  /\ Part000.app st now (post_request value)
    = ({| status := 409; payload := Error StringAlreadyExists |}, st).
Proof.
  intros Hreach Hpresent.
  destruct (db_get_present st value (reachable_keyed_by_digest st Hreach) Hpresent)
    as [r Hget].
  unfold IndexJs.app, Part000.app, run. simpl.
  rewrite (post_strings_conflict [] st now (post_request value) value r
             eq_refl Hget).
  auto.
Qed.
End StoreFacts.

Section RouterFacts.
Context `{JsEngine}.
Implicit Types (st : store) (now : jsstr).

Lemma decode_route_name :
  decodeURIComponent (js "filter-by-natural-language")
  = Some (js "filter-by-natural-language").
Proof.
  apply decodeURIComponent_plain.
  apply (bool_decide_unpack _). vm_compute. exact I.
Qed.

Lemma lower_palindromic_strings :
  toLowerCase (js "palindromic strings") = js "palindromic strings".
Proof.
  rewrite toLowerCase_ascii; [reflexivity|].
  apply (bool_decide_unpack _). vm_compute. exact I.
Qed.

(** C1 (the code does otherwise).  In both files the route
    [/strings/:string_value] is registered before
    [/strings/filter-by-natural-language], so a request
    [GET /strings/filter-by-natural-language?query=...] is served by the
    lookup of the string 'filter-by-natural-language': whatever the query,
    the answer is 404 'String not found', or 200 with the stored record when
    that very string is stored.  On the empty table and the query
    'palindromic strings' the application answers 404, where the handler of
    the natural-language route, had it been reached, would answer 200 with
    [interpreted_query]. *)
Theorem C1_natural_language_route_is_shadowed :
  (forall st now query,
      let req := natural_language_request query in
      let served :=
        (match db_get st (sha256_hex (js "filter-by-natural-language")) with
         | Some row => {| status := 200; payload := Record_ row |}
         | None => {| status := 404; payload := Error StringNotFound |}
         end, st) in
      IndexJs.app st now req = served /\ Part000.app st now req = served)
  /\ (forall now,
      let req := natural_language_request (Some (js "palindromic strings")) in
      let expected :=
        Responded
          {| status := 200;
             payload :=
               Interpreted [] 0 (js "palindromic strings")
                 (FilterSet.set_is_palindrome true FilterSet.empty) |} [] in
      IndexJs.app [] now req
        = ({| status := 404; payload := Error StringNotFound |}, [])
      /\ Part000.app [] now req
        = ({| status := 404; payload := Error StringNotFound |}, [])
      /\ IndexJs.filter_by_natural_language [] [] now req = expected
      /\ Part000.filter_by_natural_language [] [] now req = expected).
Proof.
  assert (Hserved : forall st now query,
             let req := natural_language_request query in
             let served :=
               (match db_get st (sha256_hex (js "filter-by-natural-language")) with
                | Some row => {| status := 200; payload := Record_ row |}
                | None => {| status := 404; payload := Error StringNotFound |}
                end, st) in
             IndexJs.app st now req = served /\ Part000.app st now req = served).
  { intros st now query. unfold IndexJs.app, Part000.app, run. simpl.
    unfold get_string. simpl head.
    pose proof decode_route_name as Hdecode.
    destruct (js "filter-by-natural-language") as [|u raw] eqn:E;
      [discriminate E|].
    simpl. rewrite Hdecode. destruct (db_get st _); auto. }
  split; [exact Hserved|].
  intros now. simpl.
  destruct (Hserved [] now (Some (js "palindromic strings"))) as [HI HP].
  repeat split; [exact HI | exact HP | |].
  - unfold IndexJs.filter_by_natural_language, natural_language_request.
    simpl req_query. rewrite lookup_singleton_eq.
    rewrite lower_palindromic_strings. reflexivity.
  - unfold Part000.filter_by_natural_language, natural_language_request.
    simpl req_query. rewrite lookup_singleton_eq.
    rewrite lower_palindromic_strings. reflexivity.
Qed.
End RouterFacts.

(** ** The properties at concrete inputs *)

Section Examples.
#[local] Existing Instance basic_latin.

(** The examples of the README and of the specification. *)
Example palindromic_longer_than_5 :
  IndexJs.parse_query (toLowerCase (js "Palindromic strings longer than 5"))
  = FilterSet.mk (Some true) (Some (FNum (Finite 6))) None None None.
Proof. reflexivity. Qed.

Example single_word_palindromic :
  Part000.parse_query (toLowerCase (js "single word palindromic strings"))
  = FilterSet.mk (Some true) None None (Some (FNum (Finite 1))) None.
Proof. reflexivity. Qed.

Example sha256_abc :
  sha256_hex (js "abc")
  = js "ba7816bf8f01cfea414140de5dae2223b00361a396177a9cb410ff61f20015ad".
Proof. vm_compute. reflexivity. Qed.

Example word_count_a_a_a :
  PropertySet.word_count (analyze (js "a a a")) = 3%nat
  /\ PropertySet.unique_characters (analyze (js "a a a")) = 2%nat.
Proof. split; vm_compute; reflexivity. Qed.

(** The property C6 at 'A' and at 'Racecar'. *)
Lemma C6_witness :
  (length (toLowerCase (js "A")) <= 1)%nat
  /\ PropertySet.is_palindrome (analyze (js "A")) = true
  /\ (PropertySet.is_palindrome (analyze (js "Racecar")) = true
      <-> reverse (toLowerCase (js "Racecar")) = toLowerCase (js "Racecar")).
Proof.
  split; [simpl; lia|]. split.
  - apply (proj1 (proj2 C6_is_palindrome_iff_reverse)). simpl. lia.
  - apply (proj1 C6_is_palindrome_iff_reverse).
Defined.

(** C2 as the specification states it fails on [index.js]: with the needle
    'A' and the stored value 'apple', the lowercased value contains the
    lowercased needle, and the row is rejected. *)
Lemma C2_counterexample :
  FilterSet.contains_character filter_contains_A = Some (js "A")
  /\ includes (toLowerCase (Row.value row_apple)) (toLowerCase (js "A")) = true
  /\ IndexJs.matches filter_contains_A row_apple = false.
Proof. repeat split; vm_compute; reflexivity. Qed.

(** The amended property C2 at the same input. *)
Lemma C2_witness :
  FilterSet.contains_character filter_contains_A = Some (js "A")
  /\ Part000.matches filter_contains_A row_apple
      = Part000.matches (without_contains_character filter_contains_A) row_apple
        && includes (toLowerCase (Row.value row_apple)) (toLowerCase (js "A"))
  /\ IndexJs.matches filter_contains_A row_apple
      = IndexJs.matches (without_contains_character filter_contains_A) row_apple
        && (negb (Nat.eqb (length (js "A")) 0)
            && includes (Row.value row_apple) (js "A")).
Proof.
  split; [reflexivity|].
  apply (C2_contains_character filter_contains_A row_apple (js "A")).
  reflexivity.
Defined.

(** C3 as the specification states it fails on [index.js]: the query
    'palindrome strings' contains 'palindrome', [is_palindrome] is not set and
    the route answers 400. *)
Lemma C3_counterexample :
  contains (toLowerCase (js "palindrome strings")) (js "palindrome")
  /\ FilterSet.is_palindrome
       (IndexJs.parse_query (toLowerCase (js "palindrome strings"))) = None
  /\ IndexJs.filter_by_natural_language [] [] t0
       (natural_language_request (Some (js "palindrome strings")))
     = Responded {| status := 400; payload := Error UnableToParse |} [].
Proof.
  split; [|split].
  - exists [], (js " strings"). reflexivity.
  - vm_compute. reflexivity.
  - vm_compute. reflexivity.
Qed.

(** The amended property C3 at 'Palindrome strings'. *)
Lemma C3_witness :
  (contains (toLowerCase (js "Palindrome strings")) (js "palindrome")
   \/ contains (toLowerCase (js "Palindrome strings")) (js "palindromic"))
  /\ FilterSet.is_palindrome
       (Part000.parse_query (toLowerCase (js "Palindrome strings"))) = Some true.
Proof.
  assert (Hc : contains (toLowerCase (js "Palindrome strings")) (js "palindrome")
               \/ contains (toLowerCase (js "Palindrome strings")) (js "palindromic")).
  { left. exists [], (js " strings"). reflexivity. }
  split; [exact Hc|].
  exact (proj1 (C3_palindrome_phrases (js "Palindrome strings")) Hc).
Defined.

(** C4 as the specification states it fails on [index.js]: the query
    'Strings shorter than 5' sets no [max_length] and the route answers 400. *)
Lemma C4_counterexample :
  toLowerCase (js "Strings shorter than 5")
    = js "strings " ++ js "shorter than " ++ js "5" ++ []
  /\ FilterSet.max_length
       (IndexJs.parse_query (toLowerCase (js "Strings shorter than 5"))) = None
  /\ IndexJs.filter_by_natural_language [] [] t0
       (natural_language_request (Some (js "Strings shorter than 5")))
     = Responded {| status := 400; payload := Error UnableToParse |} [].
Proof. repeat split; vm_compute; reflexivity. Qed.

(** The amended property C4 at 'Shorter than 12'. *)
Lemma C4_witness :
  toLowerCase (js "Shorter than 12") = [] ++ js "shorter than " ++ js "12" ++ []
  /\ FilterSet.max_length (Part000.parse_query (toLowerCase (js "Shorter than 12")))
     = Some (FNum (Finite (inject_Z (digits_value (js "12")) - 1)))
  /\ FilterSet.max_length (IndexJs.parse_query (toLowerCase (js "Shorter than 12")))
     = None.
Proof.
  split; [reflexivity|]. split; [|apply (proj2 C4_shorter_than)].
  apply (proj1 C4_shorter_than (js "Shorter than 12") [] (js "12") []).
  - reflexivity.
  - discriminate.
  - reflexivity.
  - reflexivity.
  - intros pre' c post' _ _. simpl. lia.
  - vm_compute. discriminate.
Defined.

(** C5 as the specification states it fails in both files: 'abc' converts to
    [NaN], and [{ min_length: 'abc' }] keeps the row of 'hello'. *)
Lemma C5_counterexample :
  StringToNumber (js "abc") = NaN
  /\ IndexJs.matches filter_min_length_abc row_hello = true
  /\ IndexJs.applyFilters [row_hello] filter_min_length_abc = [row_hello]
  /\ Part000.applyFilters [row_hello] filter_min_length_abc = [row_hello].
Proof. repeat split; vm_compute; reflexivity. Qed.

(** The amended property C5 at 'abc', as [min_length] and as [word_count]. *)
Lemma C5_witness :
  StringToNumber (js "abc") = NaN
  /\ (IndexJs.matches filter_min_length_abc row_hello
       = IndexJs.matches (without_min_length filter_min_length_abc) row_hello
      /\ Part000.matches filter_min_length_abc row_hello
       = Part000.matches (without_min_length filter_min_length_abc) row_hello)
  /\ (IndexJs.matches filter_word_count_abc row_hello = false
      /\ Part000.matches filter_word_count_abc row_hello = false).
Proof.
  assert (Hnan : StringToNumber (js "abc") = NaN) by reflexivity.
  split; [exact Hnan|]. split.
  - apply (proj1 (C5_non_numeric_filters filter_min_length_abc row_hello
                    (js "abc") Hnan)).
    reflexivity.
  - apply (proj2 (proj2 (C5_non_numeric_filters filter_word_count_abc row_hello
                           (js "abc") Hnan))).
    reflexivity.
Defined.

(** C7 as the specification states it fails on [index.js]: 'palindrome' is
    one of the six recognized patterns and occurs in 'palindrome strings',
    and the route answers 400 'Unable to parse natural language query'. *)
Lemma C7_counterexample :
  recognized_patterns (toLowerCase (js "palindrome strings"))
  /\ IndexJs.filter_by_natural_language [] [] t0
       (natural_language_request (Some (js "palindrome strings")))
     = Responded {| status := 400; payload := Error UnableToParse |} [].
Proof.
  split.
  - left. left. exists [], (js " strings"). reflexivity.
  - vm_compute. reflexivity.
Qed.

(** The amended property C7 at the query 'xyz'. *)
Lemma C7_witness :
  req_query (natural_language_request (Some (js "xyz"))) !! js "query"
    = Some (js "xyz")
  /\ js "xyz" <> []
  /\ (IndexJs.filter_by_natural_language [] [] t0
        (natural_language_request (Some (js "xyz")))
      = Responded {| status := 400; payload := Error UnableToParse |} []
      <-> ~ recognized_by_index_js (toLowerCase (js "xyz")))
  /\ (Part000.filter_by_natural_language [] [] t0
        (natural_language_request (Some (js "xyz")))
      = Responded {| status := 400; payload := Error UnableToParse |} []
      <-> ~ recognized_patterns (toLowerCase (js "xyz"))).
Proof.
  assert (Hq : req_query (natural_language_request (Some (js "xyz"))) !! js "query"
               = Some (js "xyz")) by apply lookup_singleton_eq.
  split; [exact Hq|]. split; [discriminate|].
  apply (proj1 (C7_unparsable_iff_no_pattern [] [] t0
                  (natural_language_request (Some (js "xyz"))))
           (js "xyz") Hq).
  discriminate.
Defined.

(** The property C8 at the table that holds 'racecar'. *)
Lemma C8_witness :
  (reachable IndexJs.app table_racecar \/ reachable Part000.app table_racecar)
  /\ present table_racecar (js "racecar")
  /\ IndexJs.app table_racecar t1 (post_request (js "racecar"))
     = ({| status := 409; payload := Error StringAlreadyExists |}, table_racecar)
  /\ Part000.app table_racecar t1 (post_request (js "racecar"))
     = ({| status := 409; payload := Error StringAlreadyExists |}, table_racecar).
Proof.
  assert (Hreach : reachable IndexJs.app table_racecar
                   \/ reachable Part000.app table_racecar).
  { left. apply reachable_step, reachable_empty. }
  assert (Hpresent : present table_racecar (js "racecar")).
  { exists (new_row (js "racecar") t0). split; [left|]; reflexivity. }
  split; [exact Hreach|]. split; [exact Hpresent|].
  exact (C8_duplicate_insert_conflicts table_racecar (js "racecar") t1
           Hreach Hpresent).
Defined.
End Examples.


(** * Further properties of the code *)

(** ** The life of a row: insertion, lookup, deletion *)

Section TableLifecycle.
Context `{JsEngine}.
Implicit Types (st : store) (value raw id now : jsstr) (r : Row.t).

Lemma db_get_None_iff st id : db_get st id = None <-> ~ is_key st id.
Proof.
  unfold db_get, is_key. induction st as [|x st IH]; simpl.
  - split; [intros _ [] | reflexivity].
  - destruct (str_eqb (Row.id x) id) eqn:E.
    + apply str_eqb_eq in E. split; [discriminate | intros Hn; destruct Hn; auto].
    + rewrite IH. split.
      * intros Hn [Hx | Hin]; [|auto].
        rewrite Hx, str_eqb_refl in E. discriminate.
      * intros Hn Hin. apply Hn. auto.
Qed.

Lemma db_get_is_key st id r : db_get st id = Some r -> is_key st id.
Proof.
  intros Hg. destruct (db_get_Some st id r Hg) as [Hin <-].
  apply in_map, Hin.
Qed.

Lemma db_get_delete st id : db_get (db_delete st id) id = None.
Proof.
  unfold db_get, db_delete. induction st as [|x st IH]; simpl; [reflexivity|].
  destruct (str_eqb (Row.id x) id) eqn:E; simpl; [exact IH|].
  rewrite E. exact IH.
Qed.

Lemma db_delete_other st id x :
  In x st -> Row.id x <> id -> In x (db_delete st id).
Proof.
  intros Hin Hne. apply filter_In. split; [exact Hin|].
  destruct (str_eqb (Row.id x) id) eqn:E; [|reflexivity].
  apply str_eqb_eq in E. contradiction.
Qed.

Lemma db_delete_subset st id x : In x (db_delete st id) -> In x st.
Proof. intros Hin. apply filter_In in Hin. tauto. Qed.

(** What a [POST /strings] does, case by case. *)
Lemma post_strings_cases params st now req :
  post_strings params st now req =
  match req_body_value req with
  | None => Responded {| status := 400; payload := Error ValueFieldRequired |} st
  | Some (JStr s) =>
      match db_get st (sha256_hex s) with
      | Some _ =>
          Responded {| status := 409; payload := Error StringAlreadyExists |} st
      | None =>
          Responded {| status := 201; payload := Record_ (new_row s now) |}
            (st ++ [new_row s now])
      end
  | Some _ => Responded {| status := 422; payload := Error ValueMustBeString |} st
  end.
Proof.
  unfold post_strings.
  destruct (req_body_value req) as [[| | |s|]|]; simpl; try reflexivity.
  destruct (db_get st (sha256_hex s)) eqn:Hg; [reflexivity|].
  unfold db_insert. simpl. rewrite Hg. reflexivity.
Qed.

Lemma app_post st now req :
  req_method req = POST -> req_path req = [js "strings"] ->
  IndexJs.app st now req
  = match post_strings [] st now req with
    | Responded r st' => (r, st')
    | Thrown => ({| status := 500; payload := Error InternalServerError |}, st)
    end
  /\ Part000.app st now req = IndexJs.app st now req.
Proof.
  intros Hm Hp. unfold IndexJs.app, Part000.app, run. simpl.
  rewrite Hm, Hp. simpl. auto.
Qed.

Lemma app_get_string st now raw :
  raw <> [] ->
  IndexJs.app st now (get_request raw)
  = match decodeURIComponent raw with
    | None => ({| status := 500; payload := Error InternalServerError |}, st)
    | Some value =>
        match db_get st (sha256_hex value) with
        | None => ({| status := 404; payload := Error StringNotFound |}, st)
        | Some row => ({| status := 200; payload := Record_ row |}, st)
        end
    end
  /\ Part000.app st now (get_request raw) = IndexJs.app st now (get_request raw).
Proof.
  intros Hne. destruct raw as [|u raw]; [congruence|].
  unfold IndexJs.app, Part000.app, run. simpl. unfold get_string. simpl.
  destruct (decodeURIComponent (u :: raw)); [|auto].
  destruct (db_get st _); auto.
Qed.

Lemma app_delete_string st now raw :
  IndexJs.app st now (delete_request raw)
  = match decodeURIComponent raw with
    | None => ({| status := 500; payload := Error InternalServerError |}, st)
    | Some value =>
        match db_get st (sha256_hex value) with
        | None => ({| status := 404; payload := Error StringDoesNotExist |}, st)
        | Some _ =>
            ({| status := 204; payload := NoContent |},
             db_delete st (sha256_hex value))
        end
    end
  /\ Part000.app st now (delete_request raw) = IndexJs.app st now (delete_request raw).
Proof.
  unfold IndexJs.app, Part000.app, run. simpl. unfold delete_string. simpl.
  destruct (decodeURIComponent raw); [|auto].
  destruct (db_get st _); auto.
Qed.

(** X1.  [POST /strings], on a body that [express.json()] has parsed.
    Without [value] it answers 400, with a [value] that is not a string 422,
    with a string whose digest is already a key 409, and in these cases the
    table is unchanged; otherwise it answers 201 with the new record, and
    when the string is well formed that record becomes the last row of the
    table.  Both files agree. *)
Theorem X1_post_strings_outcomes st now req :
  req_method req = POST -> req_path req = [js "strings"] ->
  Part000.app st now req = IndexJs.app st now req
  /\ match req_body_value req with
     | None =>
         IndexJs.app st now req
         = ({| status := 400; payload := Error ValueFieldRequired |}, st)
     | Some (JStr s) =>
         (is_key st (sha256_hex s) ->
          IndexJs.app st now req
          = ({| status := 409; payload := Error StringAlreadyExists |}, st))
         /\ (~ is_key st (sha256_hex s) ->
          fst (IndexJs.app st now req)
          = {| status := 201; payload := Record_ (new_row s now) |}
          /\ (is_well_formed s = true ->
              snd (IndexJs.app st now req) = st ++ [new_row s now]))
     | Some _ =>
         IndexJs.app st now req
         = ({| status := 422; payload := Error ValueMustBeString |}, st)
     end.
Proof.
  intros Hm Hp. destruct (app_post st now req Hm Hp) as [-> ->].
  split; [reflexivity|]. rewrite post_strings_cases.
  destruct (req_body_value req) as [[| | |s|]|]; try reflexivity.
  split; intros Hk.
  - destruct (db_get st (sha256_hex s)) eqn:Hg; [reflexivity|].
    apply db_get_None_iff in Hg. contradiction.
  - apply db_get_None_iff in Hk. rewrite Hk. split; [reflexivity|].
    intros _. reflexivity.
Qed.

(** X2.  Round trip: when [POST /strings] of a non-empty [value] answers 201
    with a record, a [GET /strings/:string_value] for that value (a path
    parameter that [decodeURIComponent] leaves as it is) on the resulting
    table answers 200 with the same record; its [value] is the posted string
    and its [properties] are the computed ones. *)
Theorem X2_get_after_post st now now' value r :
  value <> [] ->
  decodeURIComponent value = Some value ->
  fst (IndexJs.app st now (post_request value))
    = {| status := 201; payload := Record_ r |} ->
  IndexJs.app (snd (IndexJs.app st now (post_request value))) now'
    (get_request value)
    = ({| status := 200; payload := Record_ r |},
       snd (IndexJs.app st now (post_request value)))
  /\ Part000.app (snd (Part000.app st now (post_request value))) now'
    (get_request value)
    = ({| status := 200; payload := Record_ r |},
       snd (Part000.app st now (post_request value)))
  /\ Row.value r = value
  /\ Row.properties r = analyze value.
Proof.
  intros Hne Hdec.
  destruct (app_post st now (post_request value) eq_refl eq_refl) as [HI HP].
  rewrite HP, HI, post_strings_cases. simpl.
  destruct (db_get st (sha256_hex value)) eqn:Hg; simpl; [discriminate|].
  intros [= <-].
  destruct (app_get_string (st ++ [new_row value now]) now' value Hne) as [HgI HgP].
  rewrite HgP, HgI, Hdec.
  change (sha256_hex value) with (Row.id (new_row value now)) at 1 2.
  rewrite (db_get_app_new st (new_row value now) Hg). auto.
Qed.
Lemma is_key_delete st id id' :
  is_key (db_delete st id) id' <-> is_key st id' /\ id' <> id.
Proof.
  unfold is_key, db_delete. induction st as [|x st IH]; simpl; [tauto|].
  destruct (str_eqb (Row.id x) id) eqn:E; simpl.
  - apply str_eqb_eq in E. rewrite IH. split; [tauto|].
    intros [[Hx | Hin] Hne]; [congruence | tauto].
  - rewrite IH. split; [|tauto].
    intros [Hx | Hin]; [|tauto]. split; [auto|].
    intros ->. rewrite Hx, str_eqb_refl in E. discriminate.
Qed.

Lemma NoDup_keys_delete st id :
  NoDup (map Row.id st) -> NoDup (map Row.id (db_delete st id)).
Proof.
  induction st as [|x st IH]; simpl; [auto|].
  rewrite NoDup_cons. intros [Hx Hnd].
  destruct (str_eqb (Row.id x) id); simpl; [auto|].
  apply NoDup_cons. split; [|auto].
  rewrite list_elem_of_In in *. intros Hin. apply Hx.
  apply (is_key_delete st id (Row.id x)) in Hin. apply Hin.
Qed.

Lemma length_delete st id :
  NoDup (map Row.id st) -> is_key st id ->
  length st = S (length (db_delete st id)).
Proof.
  unfold is_key, db_delete. induction st as [|x st IH]; simpl; [intros _ []|].
  rewrite NoDup_cons, list_elem_of_In. intros [Hx Hnd] Hk.
  destruct (str_eqb (Row.id x) id) eqn:E; simpl.
  - apply str_eqb_eq in E. f_equal.
    assert (Hno : ~ is_key st id) by (rewrite <- E; exact Hx).
    clear - Hno. induction st as [|y st IH]; simpl; [reflexivity|].
    destruct (str_eqb (Row.id y) id) eqn:Ey; simpl.
    + apply str_eqb_eq in Ey. destruct Hno. left. exact Ey.
    + f_equal. apply IH. intros Hin. apply Hno. right. exact Hin.
  - f_equal. apply IH; [exact Hnd|].
    destruct Hk as [Hk | Hk]; [|exact Hk].
    rewrite Hk, str_eqb_refl in E. discriminate.
Qed.

Lemma post_strings_well_formed : preserves well_formed post_strings.
Proof.
  intros params st now req r st' [Hnd Hrows]. rewrite post_strings_cases.
  destruct (req_body_value req) as [[| | |s|]|];
    try (intros [= <- <-]; split; assumption).
  destruct (db_get st (sha256_hex s)) eqn:Hg;
    [intros [= <- <-]; split; assumption|].
  intros [= <- <-]. apply db_get_None_iff in Hg. split.
  - rewrite map_app. apply NoDup_app. split; [exact Hnd|]. split.
    + intros id Hid Hin. simpl in Hin.
      apply list_elem_of_singleton in Hin. subst id.
      apply list_elem_of_In in Hid. contradiction.
    + simpl. apply NoDup_singleton.
  - intros x Hx. apply in_app_or in Hx as [Hx | [<- | []]]; [auto | reflexivity].
Qed.

Lemma delete_string_well_formed : preserves well_formed delete_string.
Proof.
  intros params st now req r st' [Hnd Hrows]. unfold delete_string.
  destruct (decodeURIComponent _); [|discriminate].
  destruct (db_get st _); intros [= <- <-]; [|split; assumption].
  split; [apply NoDup_keys_delete, Hnd|].
  intros x Hx. apply Hrows. eapply db_delete_subset, Hx.
Qed.

#[local] Hint Resolve post_strings_well_formed delete_string_well_formed
  get_string_preserves get_strings_preserves health_preserves
  IndexJs_natural_language_preserves Part000_natural_language_preserves
  : handlers.

Lemma reachable_well_formed st :
  reachable IndexJs.app st \/ reachable Part000.app st -> well_formed st.
Proof.
  assert (Hempty : well_formed []).
  { split; [constructor | intros r []]. }
  intros [Hr | Hr]; induction Hr as [|st now req Hr IH];
    try exact Hempty;
    unfold IndexJs.app, Part000.app;
    (apply run_preserves; [|exact IH]);
    repeat (apply List.Forall_cons; [simpl; auto with handlers|]);
    apply List.Forall_nil.
Qed.

Lemma reachable_by_reachable (ok : request -> Prop) app st :
  reachable_by ok app st -> reachable app st.
Proof. induction 1; constructor; assumption. Qed.

(** What every handler of a router keeps when it serves [req], the router
    keeps when it serves [req]. *)
Lemma run_preserves_at (P : store -> Prop) routes st now req :
  Forall (fun rt => forall params resp st',
              P st -> route_handler rt params st now req = Responded resp st' ->
              P st') routes ->
  P st -> P (snd (run routes st now req)).
Proof.
  intros Hall Hst. unfold run.
  destruct (dispatch routes st now req) as [resp st'|] eqn:Hd; simpl; [|exact Hst].
  revert Hd. induction Hall as [|rt routes Hrt Hall IH]; simpl.
  - intros [= <- <-]. exact Hst.
  - destruct (method_eqb _ _); [|exact IH].
    destruct (match_path _ _) as [params|]; [|exact IH].
    intros Hh. exact (Hrt params resp st' Hst Hh).
Qed.

Lemma stored_values_well_formed (app : store -> jsstr -> request -> response * store) st :
  (app = IndexJs.app \/ app = Part000.app) ->
  reachable_by posts_well_formed app st ->
  forall r, In r st -> is_well_formed (Row.value r) = true.
Proof.
  intros Happ Hr. induction Hr as [|st now req Hok Hr IH]; [intros r []|].
  set (P := fun st : store => forall r, In r st -> is_well_formed (Row.value r) = true).
  assert (Hpost : forall params resp st',
             P st -> post_strings params st now req = Responded resp st' -> P st').
  { intros params resp st' HP. rewrite post_strings_cases.
    unfold posts_well_formed in Hok.
    destruct (req_body_value req) as [[| | |s|]|];
      try (intros [= <- <-]; exact HP).
    destruct (db_get st (sha256_hex s)); intros [= <- <-]; [exact HP|].
    intros x Hx. apply in_app_or in Hx as [Hx | [<- | []]]; [auto | exact Hok]. }
  assert (Hdel : forall params resp st',
             P st -> delete_string params st now req = Responded resp st' -> P st').
  { intros params resp st' HP. unfold delete_string.
    destruct (decodeURIComponent _); [|discriminate].
    destruct (db_get st _); intros [= <- <-]; [|exact HP].
    intros x Hx. apply HP. eapply db_delete_subset, Hx. }
  change (P (snd (app st now req))).
  assert (Hget : forall params resp st',
             P st -> get_string params st now req = Responded resp st' -> P st').
  { intros params resp st' HP Hh.
    exact (get_string_preserves P params st now req resp st' HP Hh). }
  assert (Hhealth : forall params resp st',
             P st -> health params st now req = Responded resp st' -> P st').
  { intros params resp st' HP Hh.
    exact (health_preserves P params st now req resp st' HP Hh). }
  destruct Happ as [-> | ->]; unfold IndexJs.app, Part000.app;
    (apply run_preserves_at; [|exact IH]).
  - apply List.Forall_cons; [exact Hpost|].
    apply List.Forall_cons; [exact Hget|].
    apply List.Forall_cons;
      [intros params resp st' HP Hh;
       exact (get_strings_preserves P _ params st now req resp st' HP Hh)|].
    apply List.Forall_cons; [exact Hdel|].
    apply List.Forall_cons;
      [intros params resp st' HP Hh;
       exact (IndexJs_natural_language_preserves P params st now req resp st' HP Hh)|].
    apply List.Forall_cons; [exact Hhealth|].
    apply List.Forall_nil.
  - apply List.Forall_cons; [exact Hpost|].
    apply List.Forall_cons; [exact Hget|].
    apply List.Forall_cons;
      [intros params resp st' HP Hh;
       exact (get_strings_preserves P _ params st now req resp st' HP Hh)|].
    apply List.Forall_cons; [exact Hdel|].
    apply List.Forall_cons;
      [intros params resp st' HP Hh;
       exact (Part000_natural_language_preserves P params st now req resp st' HP Hh)|].
    apply List.Forall_cons; [exact Hhealth|].
    apply List.Forall_nil.
Qed.

(** X3.  Every table that either application can reach holds at most one
    row per key, and each row is keyed by the digest of its [value], which is
    also the [sha256_hash] of its [properties].  When the strings that were
    posted are well formed, the [value] of every row is well formed and its
    [properties] are the properties computed from that value. *)
Theorem X3_reachable_tables_well_formed st :
  (reachable IndexJs.app st \/ reachable Part000.app st ->
   NoDup (map Row.id st)
   /\ forall r, In r st ->
        Row.id r = sha256_hex (Row.value r)
        /\ PropertySet.sha256_hash (Row.properties r) = Row.id r)
  /\ (reachable_by posts_well_formed IndexJs.app st
      \/ reachable_by posts_well_formed Part000.app st ->
      forall r, In r st ->
        is_well_formed (Row.value r) = true
        /\ Row.properties r = analyze (Row.value r)).
Proof.
  assert (Hrows : well_formed st -> forall r, In r st ->
            Row.id r = sha256_hex (Row.value r)
            /\ Row.properties r = analyze (Row.value r)
            /\ PropertySet.sha256_hash (Row.properties r) = Row.id r).
  { intros [_ Hrows] r Hin.
    pose proof (f_equal Row.id (Hrows r Hin)) as Hid.
    pose proof (f_equal Row.properties (Hrows r Hin)) as Hprops.
    simpl in Hid, Hprops.
    split; [exact Hid|]. split; [exact Hprops|].
    rewrite Hprops, Hid. reflexivity. }
  split.
  - intros Hreach. pose proof (reachable_well_formed st Hreach) as Hwf.
    split; [apply Hwf|].
    intros r Hin. destruct (Hrows Hwf r Hin) as (Hid & _ & Hhash). auto.
  - intros Hreach r Hin. split.
    + destruct Hreach as [Hr | Hr].
      * exact (stored_values_well_formed IndexJs.app st (or_introl eq_refl) Hr r Hin).
      * exact (stored_values_well_formed Part000.app st (or_intror eq_refl) Hr r Hin).
    + assert (Hwf : well_formed st).
      { apply reachable_well_formed.
        destruct Hreach as [Hr | Hr]; [left | right];
          eapply reachable_by_reachable, Hr. }
      apply (Hrows Hwf r Hin).
Qed.

(** X4.  [DELETE /strings/:string_value], for a path parameter that decodes
    to [value].  When the digest of [value] is not a key it answers 404 and
    the table is unchanged.  When it is a key it answers 204; afterwards the
    digest is no longer a key, the rows stored under other keys are exactly
    those of before, a second DELETE and a GET of the same parameter answer
    404, and a POST of [value] answers 201 again.  If the table had one row
    per key, exactly one row is gone.  Both files agree. *)
Theorem X4_delete_string_outcomes st now now' raw value :
  decodeURIComponent raw = Some value ->
  Part000.app st now (delete_request raw) = IndexJs.app st now (delete_request raw)
  /\ (~ is_key st (sha256_hex value) ->
      IndexJs.app st now (delete_request raw)
      = ({| status := 404; payload := Error StringDoesNotExist |}, st))
  /\ (is_key st (sha256_hex value) ->
      exists st',
        IndexJs.app st now (delete_request raw)
        = ({| status := 204; payload := NoContent |}, st')
        /\ ~ is_key st' (sha256_hex value)
        /\ (forall x, In x st' <-> In x st /\ Row.id x <> sha256_hex value)
        /\ (NoDup (map Row.id st) -> length st = S (length st'))
        /\ IndexJs.app st' now' (delete_request raw)
           = ({| status := 404; payload := Error StringDoesNotExist |}, st')
        /\ (raw <> [] ->
            IndexJs.app st' now' (get_request raw)
            = ({| status := 404; payload := Error StringNotFound |}, st'))
        /\ IndexJs.app st' now' (post_request value)
           = ({| status := 201; payload := Record_ (new_row value now') |},
              st' ++ [new_row value now'])).
Proof.
  intros Hdec.
  destruct (app_delete_string st now raw) as [HI HP].
  split; [exact HP|]. rewrite HI, Hdec. split.
  - intros Hk. apply db_get_None_iff in Hk. rewrite Hk. reflexivity.
  - intros Hk. destruct (db_get st (sha256_hex value)) as [r|] eqn:Hg;
      [|apply db_get_None_iff in Hg; contradiction].
    exists (db_delete st (sha256_hex value)).
    assert (Hgone : db_get (db_delete st (sha256_hex value)) (sha256_hex value) = None)
      by apply db_get_delete.
    split; [reflexivity|]. split; [apply db_get_None_iff, Hgone|].
    split; [|split; [|split; [|split]]].
    + intros x. unfold db_delete. rewrite filter_In. split.
      * intros [Hin Hne]. split; [exact Hin|]. intros Heq.
        rewrite Heq, str_eqb_refl in Hne. discriminate.
      * intros [Hin Hne]. split; [exact Hin|].
        destruct (str_eqb (Row.id x) (sha256_hex value)) eqn:E; [|reflexivity].
        apply str_eqb_eq in E. contradiction.
    + intros Hnd. apply length_delete; assumption.
    + destruct (app_delete_string (db_delete st (sha256_hex value)) now' raw)
        as [-> _].
      rewrite Hdec, Hgone. reflexivity.
    + intros Hne.
      destruct (app_get_string (db_delete st (sha256_hex value)) now' raw Hne)
        as [-> _].
      rewrite Hdec, Hgone. reflexivity.
    + destruct (app_post (db_delete st (sha256_hex value)) now'
                  (post_request value) eq_refl eq_refl) as [-> _].
      rewrite post_strings_cases. simpl. rewrite Hgone. reflexivity.
Qed.
End TableLifecycle.

(** ** The router as a whole *)

Section RouterAsAWhole.
Context `{JsEngine}.
Implicit Types (st : store) (now raw : jsstr) (req : request).

Ltac split_path req :=
  destruct req as [m path q b]; simpl in *; subst;
  destruct path as [|a [|b' [|c path]]]; simpl;
  repeat match goal with
         | |- context [if ?c then _ else _] => destruct c; simpl
         end.

Lemma unchanged_outcome st (o : outcome) :
  (forall r st', o = Responded r st' -> st' = st) ->
  snd (match o with
       | Responded r st' => (r, st')
       | Thrown => ({| status := 500; payload := Error InternalServerError |}, st)
       end) = st.
Proof. destruct o as [r st'|]; simpl; eauto. Qed.

(** X5.  No GET request changes the table, whatever its path and its query,
    in either file. *)
Theorem X5_get_requests_read_only st now req :
  req_method req = GET ->
  snd (IndexJs.app st now req) = st /\ snd (Part000.app st now req) = st.
Proof.
  intros Hm. unfold IndexJs.app, Part000.app, run.
  split; split_path req; try reflexivity;
    apply unchanged_outcome; intros r st' Hr; symmetry;
    first [ exact (get_string_preserves (eq st) _ _ _ _ _ _ eq_refl Hr)
          | exact (get_strings_preserves (eq st) _ _ _ _ _ _ _ eq_refl Hr)
          | exact (health_preserves (eq st) _ _ _ _ _ _ eq_refl Hr) ].
Qed.

(** X6.  The handler registered for [/strings/filter-by-natural-language]
    serves no request at all: for every table, time and request, each
    application answers and updates the table exactly as it would with that
    route left out. *)
Theorem X6_natural_language_route_is_dead st now req :
  IndexJs.app st now req = run IndexJs_routes_served st now req
  /\ Part000.app st now req = run Part000_routes_served st now req.
Proof.
  unfold IndexJs.app, Part000.app, run.
  split; destruct req as [[] path q b]; simpl;
    destruct path as [|a [|b' [|c path]]]; simpl;
    repeat match goal with
           | |- context [if ?c then _ else _] => destruct c; simpl
           end; reflexivity.
Qed.

(** X7.  When [decodeURIComponent] throws on the path parameter, the
    handlers of [GET /strings/:string_value] and of
    [DELETE /strings/:string_value] do not catch it: the error middleware
    answers 500 'internal_server_error', and the table is unchanged. *)
Theorem X7_undecodable_parameter st now raw :
  decodeURIComponent raw = None ->
  IndexJs.app st now (delete_request raw)
    = ({| status := 500; payload := Error InternalServerError |}, st)
  /\ Part000.app st now (delete_request raw)
    = ({| status := 500; payload := Error InternalServerError |}, st)
  /\ (raw <> [] ->
      IndexJs.app st now (get_request raw)
        = ({| status := 500; payload := Error InternalServerError |}, st)
      /\ Part000.app st now (get_request raw)
        = ({| status := 500; payload := Error InternalServerError |}, st)).
Proof.
  intros Hdec.
  destruct (app_delete_string st now raw) as [HdI HdP].
  rewrite HdP, HdI, Hdec. split; [reflexivity|]. split; [reflexivity|].
  intros Hne. destruct (app_get_string st now raw Hne) as [HgI HgP].
  rewrite HgP, HgI, Hdec. split; reflexivity.
Qed.
End RouterAsAWhole.

(** ** Listings *)

Section Listings.
Context `{JsEngine}.
Implicit Types (st : store) (r x y : Row.t) (l : list Row.t).

Lemma str_ltb_irrefl (a : jsstr) : str_ltb a a = false.
Proof.
  induction a as [|u a IH]; simpl; [reflexivity|].
  rewrite N.ltb_irrefl, N.eqb_refl, IH. reflexivity.
Qed.

Lemma str_ltb_trans (a b c : jsstr) :
  str_ltb a b = true -> str_ltb b c = true -> str_ltb a c = true.
Proof.
  revert b c. induction a as [|u a IH]; intros [|v b] [|w c]; simpl;
    try discriminate; try reflexivity.
  rewrite !orb_true_iff, !andb_true_iff, !N.ltb_lt, !N.eqb_eq.
  intros [Huv | [Huv Hab]] [Hvw | [Hvw Hbc]]; try (left; lia).
  right. split; [congruence | eauto].
Qed.

Lemma not_older_chain x y z :
  str_ltb (Row.created_at y) (Row.created_at x) = true ->
  not_older y z -> not_older x z.
Proof.
  unfold not_older. intros Hyx Hyz.
  destruct (str_ltb (Row.created_at x) (Row.created_at z)) eqn:Hxz; [|reflexivity].
  rewrite (str_ltb_trans _ _ _ Hyx Hxz) in Hyz. discriminate.
Qed.

Lemma insert_desc_perm r l : Permutation (insert_desc r l) (r :: l).
Proof.
  induction l as [|x l IH]; simpl; [reflexivity|].
  destruct (str_ltb _ _); [reflexivity|].
  rewrite IH. apply perm_swap.
Qed.

Lemma insert_desc_sorted r l : newest_first l -> newest_first (insert_desc r l).
Proof.
  induction l as [|x l IH]; simpl; [intros _; split; [constructor | exact I]|].
  intros [Hx Hl]. destruct (str_ltb (Row.created_at x) (Row.created_at r)) eqn:E.
  - simpl. split; [|split; assumption].
    constructor.
    + unfold not_older.
      destruct (str_ltb (Row.created_at r) (Row.created_at x)) eqn:E'; [|reflexivity].
      rewrite <- (str_ltb_irrefl (Row.created_at x)).
      symmetry. eapply str_ltb_trans; eassumption.
    + eapply Forall_impl; [exact Hx|]. intros z. apply not_older_chain, E.
  - simpl. split; [|apply IH, Hl].
    rewrite (insert_desc_perm r l). constructor; [exact E | exact Hx].
Qed.

Lemma db_all_desc_from acc st :
  Permutation (fold_left (fun sorted r => insert_desc r sorted) st acc) (acc ++ st)
  /\ (newest_first acc ->
      newest_first (fold_left (fun sorted r => insert_desc r sorted) st acc)).
Proof.
  revert acc. induction st as [|r st IH]; intros acc; simpl.
  - rewrite app_nil_r. split; [reflexivity | auto].
  - destruct (IH (insert_desc r acc)) as [Hp Hs]. split.
    + rewrite Hp, insert_desc_perm. simpl. apply Permutation_middle.
    + intros Hacc. apply Hs, insert_desc_sorted, Hacc.
Qed.

Lemma filter_perm (m : Row.t -> bool) l l' :
  Permutation l l' -> Permutation (List.filter m l) (List.filter m l').
Proof.
  induction 1 as [|x l l' Hp IH|x y l|l l' l'' H1 IH1 H2 IH2]; simpl.
  - reflexivity.
  - destruct (m x); [constructor|]; exact IH.
  - destruct (m x), (m y); try reflexivity. apply perm_swap.
  - etransitivity; eassumption.
Qed.

Lemma filter_sorted (m : Row.t -> bool) l :
  newest_first l -> newest_first (List.filter m l).
Proof.
  induction l as [|x l IH]; simpl; [auto|].
  intros [Hx Hl]. destruct (m x); simpl; [|auto].
  split; [|auto]. apply Forall_forall. intros z Hz.
  apply list_elem_of_In, filter_In in Hz as [Hz _].
  rewrite Forall_forall in Hx. apply Hx, list_elem_of_In, Hz.
Qed.

(** X8.  [GET /strings] with query parameters that Express hands over as
    text (each name given once and without brackets, which is what
    [req_query] holds) answers 200 and leaves the table unchanged.  The rows
    it lists are the stored rows accepted by the filter callback for the
    filter set built from the query (each as often as it is stored), newest
    first by [created_at], and [count] is their number.  This holds for each
    file with its own [applyFilters]. *)
Theorem X8_listing st now q :
  (exists data,
      IndexJs.app st now (list_request q)
      = ({| status := 200; payload := Listing data (length data) |}, st)
      /\ Permutation data (List.filter (IndexJs.matches (query_filters q)) st)
      /\ newest_first data)
  /\ (exists data,
      Part000.app st now (list_request q)
      = ({| status := 200; payload := Listing data (length data) |}, st)
      /\ Permutation data (List.filter (Part000.matches (query_filters q)) st)
      /\ newest_first data).
Proof.
  destruct (db_all_desc_from [] st) as [Hperm Hsorted]. simpl in Hperm.
  split.
  - exists (IndexJs.applyFilters (db_all_desc st) (query_filters q)).
    split; [reflexivity|]. split.
    + apply filter_perm, Hperm.
    + apply filter_sorted, Hsorted. exact I.
  - exists (Part000.applyFilters (db_all_desc st) (query_filters q)).
    split; [reflexivity|]. split.
    + apply filter_perm, Hperm.
    + apply filter_sorted, Hsorted. exact I.
Qed.
End Listings.

(** ** The filter callback, key by key *)

Section FilterSemantics.
Context `{JsEngine}.
Implicit Types (f : FilterSet.t) (r : Row.t) (v : field_value) (ds : jsstr).

Lemma digits_value_from_nonneg ds (acc : Z) :
  forallb is_digit ds = true -> (0 <= acc)%Z ->
  (0 <= fold_left (fun acc d => (10 * acc + (Z.of_N d - 48))%Z) ds acc)%Z.
Proof.
  revert acc. induction ds as [|d ds IH]; intros acc Hall Hacc; simpl; [exact Hacc|].
  simpl in Hall. apply andb_true_iff in Hall as [Hd Hall].
  apply IH; [exact Hall|].
  unfold is_digit, in_range in Hd. apply andb_true_iff in Hd as [H1 H2].
  apply N.leb_le in H1, H2. lia.
Qed.

Lemma num_gt_of_nat n m : num_gt (of_nat n) (of_nat m) = (m <? n)%nat.
Proof. unfold num_gt. apply num_lt_of_nat. Qed.

(** X9.  The numeric filters are inclusive bounds and an exact match.  When
    [Number] of the field is the natural number [n]: [min_length] accepts a
    row iff its stored [length] is at least [n], [max_length] iff it is at
    most [n], and [word_count] iff its stored [word_count] is [n]; this is so
    in both files.  Under every engine the text of a query parameter made of
    decimal digits (denoting at most 2^53) is such a field, with [n] the
    number it denotes. *)
Theorem X9_numeric_filters :
  (forall ds,
      ds <> [] -> forallb is_digit ds = true -> (digits_value ds <= 2 ^ 53)%Z ->
      Number (FStr ds) = of_nat (Z.to_nat (digits_value ds)))
  /\ (forall v n r,
      Number v = of_nat n ->
      let p := Row.properties r in
      IndexJs.matches (FilterSet.mk None (Some v) None None None) r
        = (n <=? PropertySet.length p)%nat
      /\ IndexJs.matches (FilterSet.mk None None (Some v) None None) r
        = (PropertySet.length p <=? n)%nat
      /\ IndexJs.matches (FilterSet.mk None None None (Some v) None) r
        = (PropertySet.word_count p =? n)%nat
      /\ Part000.matches (FilterSet.mk None (Some v) None None None) r
        = (n <=? PropertySet.length p)%nat
      /\ Part000.matches (FilterSet.mk None None (Some v) None None) r
        = (PropertySet.length p <=? n)%nat
      /\ Part000.matches (FilterSet.mk None None None (Some v) None) r
        = (PropertySet.word_count p =? n)%nat).
Proof.
  split.
  - intros ds Hne Hall Hle. simpl.
    rewrite (StringToNumber_digits ds Hne Hall Hle).
    unfold of_nat. rewrite Z2Nat.id; [reflexivity|].
    apply digits_value_from_nonneg; [exact Hall | lia].
  - intros v n r Hv p.
    unfold IndexJs.matches, Part000.matches, defined_and.
    cbn [FilterSet.is_palindrome FilterSet.min_length FilterSet.max_length
         FilterSet.word_count FilterSet.contains_character].
    fold p. rewrite Hv, num_lt_of_nat, num_gt_of_nat, num_strict_eq_of_nat.
    rewrite !Nat.ltb_antisym.
    destruct (n <=? PropertySet.length p)%nat,
      (PropertySet.length p <=? n)%nat,
      (PropertySet.word_count p =? n)%nat; auto 10.
Qed.

Lemma singleton_other (k k' v : jsstr) :
  k <> k' -> ({[ k := v ]} : gmap jsstr jsstr) !! k' = None.
Proof. intros Hne. apply lookup_singleton_ne. exact Hne. Qed.

(** X10.  The query parameter [is_palindrome] selects the palindromes only
    when its text is exactly 'true'; with any other text ('TRUE', '1', 'yes',
    the empty text) the listing selects the rows that are not palindromes,
    in both files. *)
Theorem X10_is_palindrome_parameter (text : jsstr) r :
  text <> js "true" ->
  let f := query_filters {[ js "is_palindrome" := text ]} in
  f = FilterSet.mk (Some false) None None None None
  /\ IndexJs.matches f r = negb (PropertySet.is_palindrome (Row.properties r))
  /\ Part000.matches f r = negb (PropertySet.is_palindrome (Row.properties r))
  /\ query_filters {[ js "is_palindrome" := js "true" ]}
     = FilterSet.mk (Some true) None None None None
  /\ IndexJs.matches (FilterSet.mk (Some true) None None None None) r
     = PropertySet.is_palindrome (Row.properties r)
  /\ Part000.matches (FilterSet.mk (Some true) None None None None) r
     = PropertySet.is_palindrome (Row.properties r).
Proof.
  intros Hne f.
  assert (Hkeys : forall text', query_filters {[ js "is_palindrome" := text' ]}
                  = FilterSet.mk (Some (str_eqb text' (js "true"))) None None None None).
  { intros text'. unfold query_filters.
    rewrite lookup_singleton_eq.
    rewrite !singleton_other by (intros E; vm_compute in E; discriminate E).
    reflexivity. }
  assert (Hf : f = FilterSet.mk (Some false) None None None None).
  { unfold f. rewrite Hkeys. do 2 f_equal.
    destruct (str_eqb text (js "true")) eqn:E; [|reflexivity].
    apply str_eqb_eq in E. contradiction. }
  split; [exact Hf|]. rewrite Hf, Hkeys.
  unfold IndexJs.matches, Part000.matches. simpl.
  destruct (PropertySet.is_palindrome (Row.properties r)); auto 10.
Qed.

(** X11.  The filters are combined by conjunction: in each file a row is
    accepted by a filter set exactly when it is accepted by each of its keys
    taken alone. *)
Theorem X11_filters_are_conjoined f r :
  IndexJs.matches f r
    = IndexJs.matches (only_is_palindrome f) r
      && IndexJs.matches (only_min_length f) r
      && IndexJs.matches (only_max_length f) r
      && IndexJs.matches (only_word_count f) r
      && IndexJs.matches (only_contains_character f) r
  /\ Part000.matches f r
    = Part000.matches (only_is_palindrome f) r
      && Part000.matches (only_min_length f) r
      && Part000.matches (only_max_length f) r
      && Part000.matches (only_word_count f) r
      && Part000.matches (only_contains_character f) r.
Proof.
  destruct f as [ip mn mx wc cc].
  unfold IndexJs.matches, Part000.matches, only_is_palindrome, only_min_length,
    only_max_length, only_word_count, only_contains_character, defined_and.
  cbn [FilterSet.is_palindrome FilterSet.min_length FilterSet.max_length
       FilterSet.word_count FilterSet.contains_character].
  split;
    repeat match goal with
           | |- context [match ?o with Some _ => _ | None => _ end] =>
               is_var o; destruct o
           end;
    repeat match goal with
           | |- context [if ?c then _ else _] => destruct c eqn:?; simpl
           end;
    try reflexivity; try congruence.
Qed.
End FilterSemantics.

(** ** The computed properties *)

Section PropertyFacts.
Context `{JsEngine}.
Implicit Types (s t sp : jsstr) (ch : jsstr) (m : gmap jsstr nat).

Lemma count_loop_lookup (l : list jsstr) m ch :
  foldl (fun m ch => <[ch := or_zero (m !! ch) + 1]> m) m l !! ch
  = match occurrences ch l with
    | O => m !! ch
    | S k => Some (or_zero (m !! ch) + S k)
    end.
Proof.
  unfold occurrences. revert m. induction l as [|x l IH]; intros m; simpl;
    [reflexivity|].
  rewrite IH. destruct (str_eqb x ch) eqn:E; simpl.
  - apply str_eqb_eq in E. subst x. rewrite lookup_insert_eq.
    replace (or_zero (Some (or_zero (m !! ch) + 1))) with (or_zero (m !! ch) + 1)
      by (rewrite Nat.add_1_r; reflexivity).
    destruct (length _); f_equal; lia.
  - rewrite lookup_insert_ne; [reflexivity|].
    intros ->. rewrite str_eqb_refl in E. discriminate.
Qed.

(** X12.  [character_frequency_map] maps every code point of the string to
    the number of times the string iterator yields it, and has no other
    key. *)
Theorem X12_frequency_map_counts_occurrences s ch :
  PropertySet.character_frequency_map (analyze s) !! ch
  = match occurrences ch (code_points s) with
    | O => None
    | S k => Some (S k)
    end.
Proof.
  simpl. unfold count_characters. rewrite count_loop_lookup.
  rewrite lookup_empty. reflexivity.
Qed.

Lemma split_spaces_length (cur : jsstr) (in_sep : bool) s :
  length (split_spaces_from cur in_sep s) = S (count_separators in_sep s).
Proof.
  revert cur in_sep. induction s as [|u s IH]; intros cur in_sep; simpl;
    [reflexivity|].
  destruct (is_space u); [|apply IH].
  destruct in_sep; simpl; rewrite IH; reflexivity.
Qed.

Lemma words_and_separators s :
  (ends_in_word s -> count_words true s = count_separators false s)
  /\ (s <> [] -> ends_in_word s ->
      count_words false s = S (count_separators true s)).
Proof.
  induction s as [|u s [IHA IHB]]; [split; [reflexivity | congruence]|].
  assert (Hend : ends_in_word (u :: s) ->
                 (s = [] /\ is_space u = false) \/ (s <> [] /\ ends_in_word s)).
  { unfold ends_in_word. destruct s as [|v s]; simpl; [auto|].
    intros Hl. right. split; [discriminate | exact Hl]. }
  split.
  - intros He. simpl. destruct (Hend He) as [[-> Hu] | [Hne Hs]].
    + rewrite Hu. reflexivity.
    + destruct (is_space u); simpl; auto.
  - intros _ He. simpl. destruct (Hend He) as [[-> Hu] | [Hne Hs]].
    + rewrite Hu. reflexivity.
    + destruct (is_space u); simpl; auto.
Qed.

Lemma trim_start_split s :
  exists sp, s = sp ++ trim_start s
             /\ forallb is_space sp = true
             /\ match trim_start s with
                | [] => True
                | c :: _ => is_space c = false
                end.
Proof.
  induction s as [|u s (sp & Heq & Hsp & Hhd)]; simpl.
  - exists []. auto.
  - destruct (is_space u) eqn:Hu.
    + exists (u :: sp). simpl. rewrite Hu, Hsp. split; [congruence | auto].
    + exists []. simpl. auto.
Qed.

Lemma trim_end_split s :
  exists sp, s = trim_end s ++ sp
             /\ forallb is_space sp = true
             /\ ends_in_word (trim_end s).
Proof.
  destruct (trim_start_split (reverse s)) as (sp & Heq & Hsp & Hhd).
  exists (reverse sp). unfold trim_end. split; [|split].
  - rewrite <- reverse_app, <- Heq, reverse_involutive. reflexivity.
  - apply forallb_forall. intros x Hx.
    rewrite forallb_forall in Hsp. apply Hsp.
    apply list_elem_of_In in Hx. apply list_elem_of_In.
    rewrite elem_of_reverse in Hx. exact Hx.
  - unfold ends_in_word. rewrite last_reverse.
    destruct (trim_start (reverse s)); simpl; auto.
Qed.

Lemma count_words_leading sp t :
  forallb is_space sp = true ->
  count_words false (sp ++ t) = count_words false t.
Proof.
  induction sp as [|u sp IH]; simpl; [reflexivity|].
  intros Hall. apply andb_true_iff in Hall as [-> Hall]. auto.
Qed.

Lemma count_words_trailing (in_word : bool) t sp :
  forallb is_space sp = true ->
  count_words in_word (t ++ sp) = count_words in_word t.
Proof.
  intros Hsp. revert in_word. induction t as [|u t IH]; intros in_word; simpl.
  - revert in_word. induction sp as [|v sp IHsp]; intros in_word; simpl;
      [reflexivity|].
    simpl in Hsp. apply andb_true_iff in Hsp as [-> Hsp]. auto.
  - destruct (is_space u); rewrite IH; reflexivity.
Qed.

Lemma count_words_zero s :
  count_words false s = 0 <-> forallb is_space s = true.
Proof.
  induction s as [|u s IH]; simpl; [tauto|].
  destruct (is_space u); simpl; [exact IH|]. split; discriminate.
Qed.

Lemma count_words_join (in_word : bool) s t (space : N) :
  is_space space = true ->
  count_words in_word (s ++ space :: t)
  = count_words in_word s + count_words false t.
Proof.
  intros Hsp. revert in_word. induction s as [|u s IH]; intros in_word; simpl.
  - rewrite Hsp. reflexivity.
  - destruct (is_space u); rewrite IH; lia.
Qed.

Lemma word_count_eq s :
  PropertySet.word_count (analyze s) = count_words false s.
Proof.
  simpl. unfold trim, split_spaces.
  destruct (trim_start_split s) as (sp & Hs & Hsp & Hhd).
  destruct (trim_end_split (trim_start s)) as (sp' & Ht & Hsp' & Hend).
  rewrite Hs at 3. rewrite (count_words_leading sp _ Hsp).
  rewrite Ht at 3. rewrite (count_words_trailing false _ sp' Hsp').
  destruct (trim_end (trim_start s)) as [|c te] eqn:Hte; [reflexivity|].
  simpl str_eqb. cbv iota.
  rewrite split_spaces_length.
  rewrite (proj2 (words_and_separators (c :: te))) by (auto; discriminate).
  assert (Hc : is_space c = false).
  { rewrite Ht in Hhd. exact Hhd. }
  simpl. rewrite Hc. reflexivity.
Qed.

(** X13.  [word_count] is the number of words of the string, a word being a
    maximal run of code units that are not white space.  It is 0 exactly
    for the strings made of white space only (the empty string among them),
    and joining two strings with one white-space code unit adds their word
    counts. *)
Theorem X13_word_count_counts_words :
  (forall s, PropertySet.word_count (analyze s) = count_words false s)
  /\ (forall s, PropertySet.word_count (analyze s) = 0
                <-> forallb is_space s = true)
  /\ (forall s t space,
        is_space space = true ->
        PropertySet.word_count (analyze (s ++ space :: t))
        = PropertySet.word_count (analyze s) + PropertySet.word_count (analyze t)).
Proof.
  split; [exact word_count_eq|]. split.
  - intros s. rewrite word_count_eq. apply count_words_zero.
  - intros s t space Hsp. rewrite !word_count_eq. apply count_words_join, Hsp.
Qed.

Lemma is_palindrome_eq s :
  PropertySet.is_palindrome (analyze s)
  = str_eqb (toLowerCase s) (reverse (toLowerCase s)).
Proof. simpl. rewrite join_reverse_split_units. reflexivity. Qed.

Lemma str_eqb_sym s t : str_eqb s t = str_eqb t s.
Proof.
  destruct (str_eqb s t) eqn:E, (str_eqb t s) eqn:E'; try reflexivity.
  - apply str_eqb_eq in E. subst. rewrite str_eqb_refl in E'. discriminate.
  - apply str_eqb_eq in E'. subst. rewrite str_eqb_refl in E. discriminate.
Qed.

Lemma Forall_reverse_ascii s :
  Forall (fun u => (u < 128)%N) s -> Forall (fun u => (u < 128)%N) (reverse s).
Proof.
  rewrite !Forall_forall. intros Hs x Hx. apply Hs.
  rewrite elem_of_reverse in Hx. exact Hx.
Qed.

Lemma map_reverse (f : N -> N) s : map f (reverse s) = reverse (map f s).
Proof.
  induction s as [|u s IH]; simpl; [reflexivity|].
  rewrite !reverse_cons, map_app, IH. reflexivity.
Qed.

(** X14.  On ASCII strings the palindrome test ignores case and nothing
    else: two ASCII strings that are equal up to the case of the letters
    [A-Z] have the same [is_palindrome]; a string and its reverse have the
    same [is_palindrome]; and a string followed by its reverse is always a
    palindrome. *)
Theorem X14_palindrome_on_ascii s :
  Forall (fun u => (u < 128)%N) s ->
  (forall t, Forall (fun u => (u < 128)%N) t ->
             map ascii_lower t = map ascii_lower s ->
             PropertySet.is_palindrome (analyze t)
             = PropertySet.is_palindrome (analyze s))
  /\ PropertySet.is_palindrome (analyze (reverse s))
     = PropertySet.is_palindrome (analyze s)
  /\ PropertySet.is_palindrome (analyze (s ++ reverse s)) = true.
Proof.
  intros Hs. split; [|split].
  - intros t Ht Heq. rewrite !is_palindrome_eq.
    rewrite (toLowerCase_ascii t Ht), (toLowerCase_ascii s Hs), Heq. reflexivity.
  - rewrite !is_palindrome_eq.
    rewrite (toLowerCase_ascii _ (Forall_reverse_ascii s Hs)),
      (toLowerCase_ascii s Hs).
    rewrite map_reverse, reverse_involutive. apply str_eqb_sym.
  - rewrite is_palindrome_eq, toLowerCase_ascii.
    + rewrite map_app, reverse_app, !map_reverse, reverse_involutive.
      apply str_eqb_refl.
    + apply Forall_app. split; [exact Hs | apply Forall_reverse_ascii, Hs].
Qed.
End PropertyFacts.

(** ** The other phrases of the interpreter *)

Section PhraseFacts.
Context `{JsEngine}.
Implicit Types (lower pre post ds : jsstr) (r : Row.t).

Lemma search_digits_leftmost lit lower pre ds post :
  lower = pre ++ lit ++ ds ++ post ->
  ds <> [] -> forallb is_digit ds = true -> starts_with_digit post = false ->
  (forall pre' c post',
      lower = pre' ++ lit ++ c :: post' ->
      is_digit c = true -> (length pre <= length pre')%nat) ->
  regex_search (literal_then_digits lit) lower = Some ds.
Proof.
  intros Hlower Hne Hall Hpost Hleft.
  rewrite Hlower at 1. apply regex_search_leftmost.
  - intros k Hk. rewrite <- Hlower.
    apply literal_then_digits_None. intros c rest Heq.
    apply not_true_is_false. intros Hc.
    assert (Hlen : (length pre <= length (take k lower))%nat).
    { apply (Hleft _ c rest); [|exact Hc].
      rewrite <- Heq, take_drop. reflexivity. }
    rewrite length_take in Hlen. lia.
  - apply literal_then_digits_Some. exists post. auto.
Qed.

Lemma search_word_leftmost lit lower pre c post :
  lower = pre ++ lit ++ c :: post ->
  is_word c = true ->
  (forall pre' c' post',
      lower = pre' ++ lit ++ c' :: post' ->
      is_word c' = true -> (length pre <= length pre')%nat) ->
  regex_search (literal_then_word lit) lower = Some [c].
Proof.
  intros Hlower Hc Hleft.
  rewrite Hlower at 1. apply regex_search_leftmost.
  - intros k Hk. rewrite <- Hlower.
    apply literal_then_word_None. intros c' rest Heq.
    apply not_true_is_false. intros Hc'.
    assert (Hlen : (length pre <= length (take k lower))%nat).
    { apply (Hleft _ c' rest); [|exact Hc'].
      rewrite <- Heq, take_drop. reflexivity. }
    rewrite length_take in Hlen. lia.
  - unfold literal_then_word. rewrite strip_prefix_app, Hc. reflexivity.
Qed.

Lemma num_lt_successor (n : nat) (z : Z) :
  num_lt (of_nat n) (Finite (inject_Z z + 1)) = (Z.of_nat n <=? z)%Z.
Proof.
  unfold num_lt, of_nat, of_Z, Qlt_bool, Qle_bool. simpl.
  rewrite !Z.mul_1_r.
  destruct (Z.leb_spec (z + 1) (Z.of_nat n)), (Z.leb_spec (Z.of_nat n) z);
    simpl; try reflexivity; lia.
Qed.

(** X15.  'longer than N' gives the inclusive minimum N + 1, in both files.
    Let the lowercased query be [pre ++ 'longer than ' ++ ds ++ post], where
    [ds] is a non-empty run of decimal digits that [post] does not continue
    and no occurrence of 'longer than ' followed by a digit starts further
    left.  With N the number that [ds] denotes, N below 2^53 (so that N + 1
    is computed exactly in doubles), [min_length]
    is N + 1, and that filter accepts exactly the rows whose [length] exceeds
    N.  When 'longer than ' is nowhere followed by a digit, [min_length] is
    not set. *)
Theorem X15_longer_than lower :
  (forall pre ds post,
      lower = pre ++ js "longer than " ++ ds ++ post ->
      ds <> [] ->
      forallb is_digit ds = true ->
      starts_with_digit post = false ->
      (forall pre' c post',
          lower = pre' ++ js "longer than " ++ c :: post' ->
          is_digit c = true -> (length pre <= length pre')%nat) ->
      (digits_value ds < 2 ^ 53)%Z ->
      let bound := FNum (Finite (inject_Z (digits_value ds) + 1)) in
      FilterSet.min_length (IndexJs.parse_query lower) = Some bound
      /\ FilterSet.min_length (Part000.parse_query lower) = Some bound
      /\ forall r,
          IndexJs.matches (FilterSet.mk None (Some bound) None None None) r
          = (digits_value ds <? Z.of_nat (PropertySet.length (Row.properties r)))%Z
          /\ Part000.matches (FilterSet.mk None (Some bound) None None None) r
          = (digits_value ds <? Z.of_nat (PropertySet.length (Row.properties r)))%Z)
  /\ (~ contains_then is_digit lower (js "longer than ") ->
      FilterSet.min_length (IndexJs.parse_query lower) = None
      /\ FilterSet.min_length (Part000.parse_query lower) = None).
Proof.
  rewrite IndexJs_parse_query_eq, Part000_parse_query_eq.
  cbn [FilterSet.is_palindrome FilterSet.min_length FilterSet.max_length
       FilterSet.word_count FilterSet.contains_character].
  split.
  - intros pre ds post Hlower Hne Hall Hpost Hleft _.
    rewrite (search_digits_leftmost _ lower pre ds post Hlower Hne Hall Hpost Hleft).
    split; [reflexivity|]. split; [reflexivity|].
    intros r. unfold IndexJs.matches, Part000.matches, defined_and.
    cbn [FilterSet.is_palindrome FilterSet.min_length FilterSet.max_length
         FilterSet.word_count FilterSet.contains_character Number].
    rewrite num_lt_successor, Z.ltb_antisym.
    destruct (Z.of_nat _ <=? digits_value ds)%Z; auto.
  - intros Hno. apply search_digits_None in Hno. rewrite Hno. auto.
Qed.

(** X16.  The phrases without a number, in both files.  'single word' sets
    [word_count] to 1 and nothing else does.  'containing the first vowel'
    sets [contains_character] to 'a', whatever else the query says; without
    it, [contains_character] is the word character that follows the leftmost
    'containing the letter ' that has one, and is not set when there is
    none. *)
Theorem X16_phrases_without_number lower :
  (contains lower (js "single word") ->
     FilterSet.word_count (IndexJs.parse_query lower) = Some (FNum (of_Z 1))
     /\ FilterSet.word_count (Part000.parse_query lower) = Some (FNum (of_Z 1)))
  /\ (~ contains lower (js "single word") ->
     FilterSet.word_count (IndexJs.parse_query lower) = None
     /\ FilterSet.word_count (Part000.parse_query lower) = None)
  /\ (contains lower (js "containing the first vowel") ->
     FilterSet.contains_character (IndexJs.parse_query lower) = Some (js "a")
     /\ FilterSet.contains_character (Part000.parse_query lower) = Some (js "a"))
  /\ (~ contains lower (js "containing the first vowel") ->
     (forall pre c post,
         lower = pre ++ js "containing the letter " ++ c :: post ->
         is_word c = true ->
         (forall pre' c' post',
             lower = pre' ++ js "containing the letter " ++ c' :: post' ->
             is_word c' = true -> (length pre <= length pre')%nat) ->
         FilterSet.contains_character (IndexJs.parse_query lower) = Some [c]
         /\ FilterSet.contains_character (Part000.parse_query lower) = Some [c])
     /\ (~ contains_then is_word lower (js "containing the letter ") ->
         FilterSet.contains_character (IndexJs.parse_query lower) = None
         /\ FilterSet.contains_character (Part000.parse_query lower) = None)).
Proof.
  rewrite IndexJs_parse_query_eq, Part000_parse_query_eq.
  cbn [FilterSet.is_palindrome FilterSet.min_length FilterSet.max_length
       FilterSet.word_count FilterSet.contains_character].
  split; [|split; [|split]].
  - intros Hc. apply includes_true in Hc. rewrite Hc. auto.
  - intros Hc. apply includes_false in Hc. rewrite Hc. auto.
  - intros Hc. apply includes_true in Hc. rewrite Hc. auto.
  - intros Hc. apply includes_false in Hc. rewrite Hc. split.
    + intros pre c post Hlower Hw Hleft.
      rewrite (search_word_leftmost _ lower pre c post Hlower Hw Hleft). auto.
    + intros Hno. apply search_word_None in Hno. rewrite Hno. auto.
Qed.
End PhraseFacts.

(** ** The further properties at concrete inputs *)

Section FurtherExamples.
#[local] Existing Instance basic_latin.

Lemma X1_witness :
  req_method (post_request (js "racecar")) = POST
  /\ req_path (post_request (js "racecar")) = [js "strings"]
  /\ ~ is_key [] (sha256_hex (js "racecar"))
  /\ is_well_formed (js "racecar") = true
  /\ Part000.app [] t0 (post_request (js "racecar"))
     = IndexJs.app [] t0 (post_request (js "racecar"))
  /\ fst (IndexJs.app [] t0 (post_request (js "racecar")))
     = {| status := 201; payload := Record_ (new_row (js "racecar") t0) |}
  /\ snd (IndexJs.app [] t0 (post_request (js "racecar")))
     = [] ++ [new_row (js "racecar") t0].
Proof.
  assert (Hk : ~ is_key [] (sha256_hex (js "racecar"))).
  { intros []. }
  assert (Hwf : is_well_formed (js "racecar") = true) by reflexivity.
  pose proof (X1_post_strings_outcomes [] t0 (post_request (js "racecar"))
                eq_refl eq_refl) as [Hsame [_ Hnew]].
  destruct (Hnew Hk) as [Hresp Htable].
  split; [reflexivity|]. split; [reflexivity|]. split; [exact Hk|].
  split; [exact Hwf|]. split; [exact Hsame|].
  split; [exact Hresp | exact (Htable Hwf)].
Defined.

Lemma X2_witness :
  js "racecar" <> []
  /\ decodeURIComponent (js "racecar") = Some (js "racecar")
  /\ fst (IndexJs.app [] t0 (post_request (js "racecar")))
     = {| status := 201; payload := Record_ (new_row (js "racecar") t0) |}
  /\ IndexJs.app table_racecar t1 (get_request (js "racecar"))
     = ({| status := 200; payload := Record_ (new_row (js "racecar") t0) |},
        table_racecar)
  /\ Row.properties (new_row (js "racecar") t0) = analyze (js "racecar").
Proof.
  assert (Hne : js "racecar" <> []) by discriminate.
  assert (Hdec : decodeURIComponent (js "racecar") = Some (js "racecar"))
    by reflexivity.
  assert (Hpost : fst (IndexJs.app [] t0 (post_request (js "racecar")))
                  = {| status := 201;
                       payload := Record_ (new_row (js "racecar") t0) |})
    by reflexivity.
  pose proof (X2_get_after_post [] t0 t1 (js "racecar")
                (new_row (js "racecar") t0) Hne Hdec Hpost)
    as (Hget & _ & _ & Hprops).
  split; [exact Hne|]. split; [exact Hdec|]. split; [exact Hpost|].
  split; [exact Hget | exact Hprops].
Defined.

Lemma X3_witness :
  (reachable IndexJs.app table_racecar \/ reachable Part000.app table_racecar)
  /\ (reachable_by posts_well_formed IndexJs.app table_racecar
      \/ reachable_by posts_well_formed Part000.app table_racecar)
  /\ NoDup (map Row.id table_racecar)
  /\ forall r, In r table_racecar ->
       Row.id r = sha256_hex (Row.value r)
       /\ PropertySet.sha256_hash (Row.properties r) = Row.id r
       /\ is_well_formed (Row.value r) = true
       /\ Row.properties r = analyze (Row.value r).
Proof.
  assert (Hok : posts_well_formed (post_request (js "racecar"))) by reflexivity.
  assert (Hposts : reachable_by posts_well_formed IndexJs.app table_racecar
                   \/ reachable_by posts_well_formed Part000.app table_racecar).
  { left. exact (reachable_by_step posts_well_formed IndexJs.app [] t0
                   (post_request (js "racecar")) Hok
                   (reachable_by_empty posts_well_formed IndexJs.app)). }
  assert (Hreach : reachable IndexJs.app table_racecar
                   \/ reachable Part000.app table_racecar).
  { left. apply reachable_step, reachable_empty. }
  destruct (X3_reachable_tables_well_formed table_racecar) as [Hall Hwell].
  destruct (Hall Hreach) as [Hnd Hrows].
  split; [exact Hreach|]. split; [exact Hposts|]. split; [exact Hnd|].
  intros r Hin. destruct (Hrows r Hin) as [Hid Hhash].
  destruct (Hwell Hposts r Hin) as [Hwf Hprops].
  split; [exact Hid|]. split; [exact Hhash|]. split; [exact Hwf | exact Hprops].
Defined.

Lemma X4_witness :
  decodeURIComponent (js "racecar") = Some (js "racecar")
  /\ Part000.app table_racecar t1 (delete_request (js "racecar"))
     = IndexJs.app table_racecar t1 (delete_request (js "racecar"))
  /\ (~ is_key [] (sha256_hex (js "racecar")) ->
      IndexJs.app [] t1 (delete_request (js "racecar"))
      = ({| status := 404; payload := Error StringDoesNotExist |}, [])).
Proof.
  assert (Hdec : decodeURIComponent (js "racecar") = Some (js "racecar"))
    by reflexivity.
  split; [exact Hdec|]. split.
  - exact (proj1 (X4_delete_string_outcomes table_racecar t1 t1
                    (js "racecar") (js "racecar") Hdec)).
  - exact (proj1 (proj2 (X4_delete_string_outcomes [] t1 t1
                           (js "racecar") (js "racecar") Hdec))).
Defined.

Lemma X5_witness :
  req_method (get_request (js "racecar")) = GET
  /\ snd (IndexJs.app table_racecar t1 (get_request (js "racecar")))
     = table_racecar
  /\ snd (Part000.app table_racecar t1 (get_request (js "racecar")))
     = table_racecar.
Proof.
  split; [reflexivity|].
  exact (X5_get_requests_read_only table_racecar t1
           (get_request (js "racecar")) eq_refl).
Defined.

Lemma X7_witness :
  decodeURIComponent (js "100%") = None
  /\ IndexJs.app table_racecar t1 (delete_request (js "100%"))
     = ({| status := 500; payload := Error InternalServerError |}, table_racecar).
Proof.
  assert (Hdec : decodeURIComponent (js "100%") = None) by reflexivity.
  split; [exact Hdec|].
  exact (proj1 (X7_undecodable_parameter table_racecar t1 (js "100%") Hdec)).
Defined.

Lemma X9_witness :
  js "5" <> []
  /\ forallb is_digit (js "5") = true
  /\ (digits_value (js "5") <= 2 ^ 53)%Z
  /\ Number (FStr (js "5")) = of_nat (Z.to_nat (digits_value (js "5")))
  /\ IndexJs.matches (FilterSet.mk None (Some (FStr (js "5"))) None None None)
       row_hello
     = (5 <=? PropertySet.length (Row.properties row_hello))%nat.
Proof.
  assert (Hne : js "5" <> []) by discriminate.
  assert (Hall : forallb is_digit (js "5") = true) by reflexivity.
  assert (Hle : (digits_value (js "5") <= 2 ^ 53)%Z) by (vm_compute; discriminate).
  pose proof (proj1 X9_numeric_filters (js "5") Hne Hall Hle) as Hnum.
  split; [exact Hne|]. split; [exact Hall|]. split; [exact Hle|].
  split; [exact Hnum|].
  exact (proj1 (proj2 X9_numeric_filters (FStr (js "5")) 5%nat row_hello Hnum)).
Defined.

Lemma X10_witness :
  js "TRUE" <> js "true"
  /\ query_filters {[ js "is_palindrome" := js "TRUE" ]}
     = FilterSet.mk (Some false) None None None None
  /\ IndexJs.matches (query_filters {[ js "is_palindrome" := js "TRUE" ]}) row_hello
     = negb (PropertySet.is_palindrome (Row.properties row_hello)).
Proof.
  assert (Hne : js "TRUE" <> js "true") by discriminate.
  pose proof (X10_is_palindrome_parameter (js "TRUE") row_hello Hne)
    as (Hf & Hm & _).
  split; [exact Hne|]. split; [exact Hf | exact Hm].
Defined.

Lemma X13_witness :
  is_space 32%N = true
  /\ PropertySet.word_count (analyze (js "a" ++ 32%N :: js "b c"))
     = PropertySet.word_count (analyze (js "a"))
       + PropertySet.word_count (analyze (js "b c")).
Proof.
  split; [reflexivity|].
  apply (proj2 (proj2 X13_word_count_counts_words)). reflexivity.
Defined.

Lemma X14_witness :
  Forall (fun u => (u < 128)%N) (js "Ab")
  /\ PropertySet.is_palindrome (analyze (js "Ab" ++ reverse (js "Ab"))) = true
  /\ (map ascii_lower (js "aB") = map ascii_lower (js "Ab") ->
      PropertySet.is_palindrome (analyze (js "aB"))
      = PropertySet.is_palindrome (analyze (js "Ab"))).
Proof.
  assert (Hs : Forall (fun u => (u < 128)%N) (js "Ab"))
    by (repeat constructor).
  assert (Ht : Forall (fun u => (u < 128)%N) (js "aB"))
    by (repeat constructor).
  destruct (X14_palindrome_on_ascii (js "Ab") Hs) as (Hcase & _ & Hdouble).
  split; [exact Hs|]. split; [exact Hdouble|]. exact (Hcase (js "aB") Ht).
Defined.

Lemma X15_witness :
  js "longer than 10" = [] ++ js "longer than " ++ js "10" ++ []
  /\ FilterSet.min_length (IndexJs.parse_query (js "longer than 10"))
     = Some (FNum (Finite (inject_Z (digits_value (js "10")) + 1)))
  /\ FilterSet.min_length (Part000.parse_query (js "longer than 10"))
     = Some (FNum (Finite (inject_Z (digits_value (js "10")) + 1))).
Proof.
  split; [reflexivity|].
  assert (Hlt : (digits_value (js "10") < 2 ^ 53)%Z) by (vm_compute; reflexivity).
  destruct (proj1 (X15_longer_than (js "longer than 10")) [] (js "10") []
              eq_refl ltac:(discriminate) eq_refl eq_refl
              ltac:(intros; simpl; lia) Hlt) as (HI & HP & _).
  split; [exact HI | exact HP].
Defined.

Lemma X16_witness :
  ~ contains (js "containing the letter z") (js "containing the first vowel")
  /\ js "containing the letter z" = [] ++ js "containing the letter " ++ 122%N :: []
  /\ is_word 122%N = true
  /\ FilterSet.contains_character (IndexJs.parse_query (js "containing the letter z"))
     = Some [122%N]
  /\ FilterSet.contains_character (Part000.parse_query (js "containing the letter z"))
     = Some [122%N].
Proof.
  assert (Hno : ~ contains (js "containing the letter z")
                  (js "containing the first vowel"))
    by (apply includes_false; reflexivity).
  split; [exact Hno|]. split; [reflexivity|]. split; [reflexivity|].
  exact (proj1 (proj2 (proj2 (proj2
           (X16_phrases_without_number (js "containing the letter z"))) ) Hno)
           [] 122%N [] eq_refl eq_refl ltac:(intros; simpl; lia)).
Defined.
End FurtherExamples.
